(** * FormBuilder: a shallow embedding of
    [admin/client/src/components/FormBuilder/FormBuilder.js]

    The component fetches a form schema and form state, merges them per
    field, maps fields and actions to React components and forwards field
    updates and submissions to the Redux store.

    Layout of this file:
    - [value]: JSON-like JavaScript values (objects are finite maps);
    - the JavaScript primitives the component relies on ([typeof], [get],
      [assign], strict equality, ...);
    - [Module Merge]: the part of the imported [merge] package that
      [mergeFieldData] calls, on values;
    - the component itself, method by method, under the source's names;
    - [Module Store]: [mergeFieldData] and the [merge] package on a store
      of mutable objects, where object identity and updates in place are
      visible;
    - sample data, then the properties, component by component. *)

From stdpp Require Import gmap strings list fin_maps pretty.

#[local] Set Warnings "-register-all,-clear-no-such-hyp".
Open Scope string_scope.
Open Scope list_scope.

(** ** JavaScript values *)

(** Numbers are modelled by integers, which covers ids, lengths and the
    literal [1] written by the component.  [VFun] stands for a function
    value, identified by its name: the bound methods of the component that
    are handed to child components. *)
#[local] Unset Elimination Schemes.
Inductive value : Type :=
  | VUndefined
  | VNull
  | VBool (b : bool)
  | VNum (z : Z)
  | VStr (s : string)
  | VFun (name : string)
  | VArr (vs : list value)
  | VObj (m : gmap string value).
#[local] Set Elimination Schemes.

#[global] Instance value_inhabited : Inhabited value := populate VUndefined.

(** Size of a value, used to derive the induction principle through the
    nested [list] and [gmap]. *)
Fixpoint vsize (v : value) : nat :=
  match v with
  | VArr vs => S (foldr (fun x n => vsize x + n) 0 vs)
  | VObj m => S (map_fold (fun _ x n => vsize x + n) 0 m)
  | _ => 1
  end.

(** ** Outcomes: a computation returns or throws a [TypeError] *)

Inductive outcome (A : Type) : Type :=
  | Ok (a : A)
  | TypeError.
Arguments Ok {A} a.
Arguments TypeError {A}.

#[global] Instance outcome_ret : MRet outcome := fun A a => Ok a.
#[global] Instance outcome_bind : MBind outcome := fun A B f m =>
  match m with
  | Ok a => f a
  | TypeError => TypeError
  end.

(** [arr.map(f)] where [f] may throw: the first exception aborts the loop. *)
Fixpoint map_outcome {A B : Type} (f : nat -> A -> outcome B) (i : nat)
    (l : list A) : outcome (list B) :=
  match l with
  | [] => Ok []
  | x :: rest =>
      y ← f i x;
      ys ← map_outcome f (S i) rest;
      Ok (y :: ys)
  end.

(** ** Primitive operations *)

(** The [typeof] operator. *)
Definition typeof (v : value) : string :=
  match v with
  | VUndefined => "undefined"
  | VNull => "object"
  | VBool _ => "boolean"
  | VNum _ => "number"
  | VStr _ => "string"
  | VFun _ => "function"
  | VArr _ => "object"
  | VObj _ => "object"
  end.

Definition is_undefined (v : value) : bool :=
  match v with VUndefined => true | _ => false end.

Definition nullish (v : value) : bool :=
  match v with VUndefined | VNull => true | _ => false end.

(** Conversion to boolean, as done by [if], [!] and [&&]. *)
Definition truthy (v : value) : bool :=
  match v with
  | VUndefined | VNull => false
  | VBool b => b
  | VNum z => negb (z =? 0)%Z
  | VStr s => negb (String.eqb s "")
  | VFun _ | VArr _ | VObj _ => true
  end.

(** [a === b].  Arrays and objects are compared by identity; the values
    compared by the component sit at different places of the data (a
    schema field and a state field), hence are different objects. *)
Definition strict_eq (a b : value) : bool :=
  match a, b with
  | VUndefined, VUndefined => true
  | VNull, VNull => true
  | VBool x, VBool y => bool_decide (x = y)
  | VNum x, VNum y => bool_decide (x = y)
  | VStr x, VStr y => bool_decide (x = y)
  | VFun x, VFun y => bool_decide (x = y)
  | _, _ => false
  end.

(** Conversion to string, as applied to computed property names. *)
Fixpoint to_string (v : value) : string :=
  match v with
  | VUndefined => "undefined"
  | VNull => "null"
  | VBool true => "true"
  | VBool false => "false"
  | VNum z => pretty z
  | VStr s => s
  | VFun name => name
  | VArr vs =>
      String.concat ","
        (map (fun x => match x with
                       | VUndefined | VNull => ""
                       | _ => to_string x
                       end) vs)
  | VObj _ => "[object Object]"
  end.

Definition to_key (v : value) : string := to_string v.

(** Own enumerable properties: what [for (key in v)] and [Object.assign]
    see.  Arrays and strings expose their indices. *)
Definition indexed {A : Type} (f : A -> value) (l : list A) : gmap string value :=
  list_to_map (imap (fun i x => (pretty i, f x)) l).

Definition own_props (v : value) : gmap string value :=
  match v with
  | VObj m => m
  | VArr vs => indexed id vs
  | VStr s => indexed (fun c => VStr (String c "")) (String.list_ascii_of_string s)
  | _ => ∅
  end.

(** Property read on a value that is neither [undefined] nor [null].
    Inherited members (methods of the prototypes) are not modelled; none of
    the names read by the component is one. *)
Definition prop (v : value) (k : string) : value :=
  match v with
  | VObj m => default VUndefined (m !! k)
  | VArr vs =>
      match own_props v !! k with
      | Some x => x
      | None =>
          if String.eqb k "length" then VNum (Z.of_nat (length vs)) else VUndefined
      end
  | VStr s =>
      match own_props v !! k with
      | Some x => x
      | None =>
          if String.eqb k "length" then VNum (Z.of_nat (String.length s))
          else VUndefined
      end
  | _ => VUndefined
  end.

(** [v.k] and [v[k]]: reading a property of [undefined] or [null] throws. *)
Definition get (v : value) (k : string) : outcome value :=
  if nullish v then TypeError else Ok (prop v k).

(** [v[i]] for a numeric index. *)
Definition get_index (v : value) (i : nat) : outcome value := get v (pretty i).

(** [Object.assign({}, s1, ..., sn)]: later sources win. *)
Definition assign (sources : list value) : gmap string value :=
  foldl (fun target s => own_props s ∪ target) ∅ sources.

(** Conversion to number ([None] is NaN) of the decimal integer literals;
    other numeric spellings fall outside the integers of this model. *)
Definition digit_of (c : Ascii.ascii) : option Z :=
  let n := Ascii.nat_of_ascii c in
  if bool_decide (48 <= n <= 57)%nat then Some (Z.of_nat n - 48)%Z else None.

Fixpoint digits_value (acc : Z) (s : string) : option Z :=
  match s with
  | EmptyString => Some acc
  | String c rest =>
      match digit_of c with
      | Some d => digits_value (10 * acc + d)%Z rest
      | None => None
      end
  end.

Definition string_to_number (s : string) : option Z :=
  match s with
  | EmptyString => Some 0%Z
  | String c (String _ _ as rest) =>
      let n := Ascii.nat_of_ascii c in
      if bool_decide (n = 45)%nat then Z.opp <$> digits_value 0 rest
      else if bool_decide (n = 43)%nat then digits_value 0 rest
      else digits_value 0 s
  | _ => digits_value 0 s
  end.

Definition to_number (v : value) : option Z :=
  match v with
  | VUndefined => None
  | VNull => Some 0%Z
  | VBool b => Some (if b then 1 else 0)%Z
  | VNum z => Some z
  | VStr s => string_to_number s
  | VFun _ => None
  | VArr _ | VObj _ => string_to_number (to_string v)
  end.

(** [v > 0]. *)
Definition gt_zero (v : value) : bool :=
  match to_number v with
  | Some z => bool_decide (0 < z)%Z
  | None => false
  end.

(** ** The [merge] package

    FormBuilder.js imports [merge] from the npm package of that name and
    calls [merge.recursive(true, ...)].  The package is not part of the
    sources at hand.  The specification describes the call as a deep merge
    in which the state wins on overlapping keys; the definitions of this
    module give that merge as the package (version 1.2) computes it, on
    values.  [Module Store] further down gives it on mutable objects. *)

Module Merge.

(** Modelled from the spec: the type tag used by the [merge] package (not
    under src/), the class name of a value in lower case, under which only
    plain objects are ["object"]. *)
Definition typeOf (v : value) : string :=
  match v with
  | VUndefined => "undefined"
  | VNull => "null"
  | VBool _ => "boolean"
  | VNum _ => "number"
  | VStr _ => "string"
  | VFun _ => "function"
  | VArr _ => "array"
  | VObj _ => "object"
  end.

Definition plain (v : value) : bool := bool_decide (typeOf v = "object").

(** Modelled from the spec: [merge.clone] of the package (not under src/),
    the deep copy of arrays and plain objects that clone mode takes of every
    member. *)
Fixpoint clone (input : value) : value :=
  match input with
  | VArr vs => VArr (clone <$> vs)
  | VObj m => VObj (clone <$> m)
  | _ => input
  end.

(** Modelled from the spec: [merge_recursive(base, extend)] of the package
    (not under src/), the deep merge in which [extend] wins.  When [base] is
    not a plain object the result is [extend]; otherwise every enumerable
    key of [extend] is written into [base], recursively when both sides
    hold plain objects.  The recursion is on [base], whose keys are visited
    here instead of those of [extend]; each key is written at most once, so
    the outcome is the same. *)
Fixpoint merge_recursive (base extend : value) {struct base} : value :=
  match base with
  | VObj mb =>
      let me := own_props extend in
      VObj (map_imap (fun key b =>
                        Some (match me !! key with
                              | Some e =>
                                  if plain b && plain e then merge_recursive b e
                                  else e
                              | None => b
                              end)) mb ∪ me)
  | _ => extend
  end.

(** Modelled from the spec: [merge(clone, recursive, argv)] of the package
    (not under src/): the arguments that are plain objects are folded, left
    to right, into a new object in clone mode, and into the first argument
    otherwise. *)
Definition merge (clone_mode recursive_mode : bool) (argv : list value) : value :=
  let result :=
    match argv with
    | first :: _ => if clone_mode || negb (plain first) then ∅ else own_props first
    | [] => ∅
    end in
  VObj (foldl (fun result item =>
                 if plain item then
                   map_imap (fun key x =>
                               let sitem := if clone_mode then clone x else x in
                               Some (if recursive_mode
                                     then merge_recursive (default VUndefined (result !! key)) sitem
                                     else sitem))
                            (own_props item) ∪ result
                 else result)
              result argv).

(** Modelled from the spec: [merge.recursive(clone, ...)] of the package
    (not under src/); the flag itself is the first element of
    [arguments]. *)
Definition recursive (clone_flag : value) (args : list value) : value :=
  merge (strict_eq clone_flag (VBool true)) true (clone_flag :: args).

End Merge.

(** ** The world around a component instance *)

Definition promise := nat.
Definition event := nat.

(** React component classes: the two imported ones and those handed out by
    the injector. *)
Inductive component : Type :=
  | Form
  | FormAction
  | Registered (name : string).

(** What a render function returns: [null] or a React element, given by its
    type and the configuration passed to [React.createElement]. *)
Inductive node : Type :=
  | NNull
  | NElement (type : component) (config : gmap string value).

(** The request issued through [isomorphic-fetch]. *)
Record request : Type := {
  req_url : string;
  req_header : string;
  req_credentials : string;
}.

(** The fetcher built by [backend.createEndpointFetcher], given by its
    configuration. *)
Record endpoint : Type := {
  url : value;
  method : value;
  defaultData : gmap string value;
}.

(** Calls of the bound action creators ([schemaActions], [formActions]). *)
Inductive action : Type :=
  | SetSchema (formSchema : value)
  | AddForm (formState : value)
  | RemoveForm (formId : value)
  | UpdateField (formId updates : value)
  | SubmitForm (api : option endpoint) (formId fieldValues : value).

(** Instance fields and the effects observed so far.  [formSchemaPromise]
    is [None] for [null], [submitApi] is [None] for [undefined]. *)
Record world : Type := {
  formSchemaPromise : option promise;
  isFetching : bool;
  submitApi : option endpoint;
  requests : list request;
  responded : list promise;
  dispatched : list action;
  prevented : list event;
}.

(** The state left by the constructor. *)
Definition constructed : world := {|
  formSchemaPromise := None;
  isFetching := false;
  submitApi := None;
  requests := [];
  responded := [];
  dispatched := [];
  prevented := [];
|}.

(** Effectful methods: state passing, with exceptions. *)
Definition M (A : Type) : Type := world -> outcome A * world.

#[global] Instance M_ret : MRet M := fun A a w => (Ok a, w).
#[global] Instance M_bind : MBind M := fun A B f m w =>
  match m w with
  | (Ok a, w') => f a w'
  | (TypeError, w') => (TypeError, w')
  end.

Definition lift {A : Type} (o : outcome A) : M A := fun w => (o, w).
Definition read {A : Type} (f : world -> A) : M A := fun w => (Ok (f w), w).
Definition update (f : world -> world) : M unit := fun w => (Ok tt, f w).

Definition dispatch (a : action) : M unit :=
  update (fun w => {|
    formSchemaPromise := formSchemaPromise w; isFetching := isFetching w;
    submitApi := submitApi w; requests := requests w;
    responded := responded w;
    dispatched := dispatched w ++ [a];
    prevented := prevented w |}).

(** A request is outstanding from the moment it is issued until its
    response has been handled. *)
Definition outstanding (w : world) (p : promise) : Prop :=
  p < length (requests w) ∧ p ∉ responded w.

(** The registry of [lib/Injector], which is not among the sources at hand
    and is taken as a parameter: its two lookups, [None] being [null]. *)
Record Injector : Type := {
  getComponentByName : value -> option component;
  getComponentByDataType : value -> option component;
}.

(** [this.props], typed after [propTypes]; the bound action creators are the
    [dispatch] calls above.  Absent optional props are [None]. *)
Module Props.
Record t : Type := {
  config : value;
  createFn : option (component -> value -> node);
  form : gmap string value;
  handleSubmit : option (event -> value -> M unit -> M unit);
  schemas : gmap string value;
  schemaUrl : string;
}.
End Props.

(** ** The component *)

Section FormBuilderComponent.

Variable injector : Injector.
Variable props : Props.t.

(** [getFormSchema()]: [this.props.schemas[this.props.schemaUrl]]. *)
Definition getFormSchema : value :=
  default VUndefined (Props.schemas props !! Props.schemaUrl props).

(** [getFormId()]. *)
Definition getFormId : outcome value :=
  let schema := getFormSchema in
  if truthy schema then get schema "id" else Ok VNull.

(** [this.props.form[formId]]. *)
Definition formOf (formId : value) : value :=
  default VUndefined (Props.form props !! to_key formId).

(** [fetch(schema = true, state = true)].  The two [setState] calls that
    would toggle [isFetching] are commented out in the source, so the flag
    is only read. *)
Definition fetch (schema state : value) : M (option promise) := fun w =>
  let schema := if is_undefined schema then VBool true else schema in
  let state := if is_undefined state then VBool true else state in
  if isFetching w then (Ok (formSchemaPromise w), w)
  else
    let headerValues :=
      (if strict_eq schema (VBool true) then ["schema"] else []) ++
      (if strict_eq state (VBool true) then ["state"] else []) in
    let p : promise := length (requests w) in
    (Ok (Some p),
     {| formSchemaPromise := Some p;
        isFetching := isFetching w;
        submitApi := submitApi w;
        requests := requests w ++
          [{| req_url := Props.schemaUrl props;
              req_header := String.concat "," headerValues;
              req_credentials := "same-origin" |}];
        responded := responded w;
        dispatched := dispatched w;
        prevented := prevented w |}).

(** [componentDidMount()]. *)
Definition componentDidMount : M unit :=
  _ ← fetch VUndefined VUndefined; mret tt.

Definition set_submitApi (api : endpoint) : M unit :=
  update (fun w => {|
    formSchemaPromise := formSchemaPromise w; isFetching := isFetching w;
    submitApi := Some api;
    requests := requests w; responded := responded w;
    dispatched := dispatched w; prevented := prevented w |}).

(** The callback [json => { ... }] chained on the request in [fetch]. *)
Definition fetch_then (json : value) : M unit :=
  id ← lift (get json "id");
  schema ← lift (get json "schema");
  let formSchema := VObj {[ "id" := id; "schema" := schema ]} in
  state ← lift (get json "state");
  let formState := VObj (assign [state]) in
  _ ← (if negb (String.eqb (typeof (prop formSchema "id")) "undefined") then
         securityID ← lift (get (Props.config props) "SecurityID");
         let defaultData : gmap string value := {[ "SecurityID" := securityID ]} in
         actions ← lift (get schema "actions");
         len ← lift (get actions "length");
         defaultData ←
           (if gt_zero len then
              first ← lift (get_index actions 0);
              name ← lift (get first "name");
              mret (<[to_key name := VNum 1]> defaultData)
            else mret defaultData);
         attributes ← lift (get schema "attributes");
         action ← lift (get attributes "action");
         method ← lift (get attributes "method");
         _ ← set_submitApi {| url := action; method := method;
                              defaultData := defaultData |};
         dispatch (SetSchema formSchema)
       else mret tt);
  if negb (String.eqb (typeof (prop formState "id")) "undefined") then
    dispatch (AddForm formState)
  else mret tt.


(** [this.props.formActions.updateField]. *)
Definition updateField (formId updates : value) : M unit :=
  dispatch (UpdateField formId updates).

(** [handleFieldUpdate(event, updates, fn)]; [fn] is [None] when the third
    argument is not passed. *)
Definition handleFieldUpdate (ev : event) (updates : value)
    (fn : option (value -> (value -> value -> M unit) -> M unit)) : M unit :=
  match fn with
  | Some fn =>
      formId ← lift getFormId;
      fn formId updateField
  | None =>
      formId ← lift getFormId;
      updateField formId updates
  end.

(** [schemaFields.find(schemaField => schemaField.id === curr.id)]. *)
Fixpoint find_schemaField (schemaFields : list value) (curr : value) : outcome value :=
  match schemaFields with
  | [] => Ok VUndefined
  | schemaField :: rest =>
      a ← get schemaField "id";
      b ← get curr "id";
      if strict_eq a b then Ok schemaField else find_schemaField rest curr
  end.

(** The reducer of [handleSubmit]:
    [(prev, curr) => Object.assign({}, prev, { [name]: curr.value })]. *)
Definition fieldValues_step (schemaFields : value) (prev curr : value) : outcome value :=
  found ← match schemaFields with
          | VArr sfs => find_schemaField sfs curr
          | _ => TypeError
          end;
  name ← get found "name";
  v ← get curr "value";
  Ok (VObj (assign [prev; VObj {[ to_key name := v ]}])).

Fixpoint reduce (f : value -> value -> outcome value) (l : list value)
    (init : value) : outcome value :=
  match l with
  | [] => Ok init
  | x :: rest => acc ← f init x; reduce f rest acc
  end.

(** The first statements of [handleSubmit]: the payload. *)
Definition fieldValues : outcome value :=
  schema ← get getFormSchema "schema";
  schemaFields ← get schema "fields";
  formId ← getFormId;
  fields ← get (formOf formId) "fields";
  match fields with
  | VArr fs => reduce (fieldValues_step schemaFields) fs (VObj ∅)
  | _ => TypeError
  end.

(** The closure [submitFn] of [handleSubmit]. *)
Definition submitFn (fieldValues : value) : M unit :=
  api ← read submitApi;
  formId ← lift getFormId;
  dispatch (SubmitForm api formId fieldValues).

Definition preventDefault (ev : event) : M unit :=
  update (fun w => {|
    formSchemaPromise := formSchemaPromise w; isFetching := isFetching w;
    submitApi := submitApi w; requests := requests w;
    responded := responded w; dispatched := dispatched w;
    prevented := prevented w ++ [ev] |}).

(** [handleSubmit(event)]. *)
Definition handleSubmit (ev : event) : M unit :=
  values ← lift fieldValues;
  match Props.handleSubmit props with
  | Some custom => custom ev values (submitFn values)
  | None =>
      _ ← preventDefault ev;
      submitFn values
  end.

(** [deepFreeze] (package [deep-freeze-strict]) freezes its argument in
    place and returns it; whether an object is frozen is not part of
    [value]. *)
Definition deepFreeze (o : value) : value := o.

(** The conditional expression that opens the callback of
    [mapFieldsToComponents]: the component class of a field. *)
Definition fieldComponent (field : value) : outcome (option component) :=
  name ← get field "component";
  if negb (strict_eq name VNull) then Ok (getComponentByName injector name)
  else type ← get field "type"; Ok (getComponentByDataType injector type).

(** The callback of [mapFieldsToComponents]. *)
Definition fieldToComponent (i : nat) (field : value) : outcome node :=
  Component ← fieldComponent field;
  match Component with
  | None => Ok NNull
  | Some Component =>
      let fprops := assign [field; VObj {[ "onChange" := VFun "handleFieldUpdate" ]}] in
      match Props.createFn props with
      | Some createFn => Ok (createFn Component (VObj fprops))
      | None => Ok (NElement Component (fprops ∪ {[ "key" := VNum (Z.of_nat i) ]}))
      end
  end.

(** [mapFieldsToComponents(fields)]. *)
Definition mapFieldsToComponents (fields : list value) : outcome (list node) :=
  map_outcome fieldToComponent 0 fields.

(** The properties an action resolves to: the [switch] of
    [mapActionsToComponents]. *)
Definition actionProps (form : value) (action : value) : outcome value :=
  let aprops := deepFreeze action in
  name ← get aprops "name";
  if strict_eq name (VStr "action_save") then
    title ← get aprops "title";
    loading ← (if negb (String.eqb (typeof form) "undefined")
               then get form "submitting" else Ok (VBool false));
    Ok (deepFreeze (VObj (assign [
      VObj {[ "type" := VStr "submit"; "label" := title; "icon" := VStr "save";
              "loading" := loading; "bootstrapButtonStyle" := VStr "primary" ]};
      aprops ])))
  else if strict_eq name (VStr "action_cancel") then
    title ← get aprops "title";
    Ok (deepFreeze (VObj (assign [
      VObj {[ "type" := VStr "button"; "label" := title ]};
      aprops ])))
  else Ok aprops.

(** The callback of [mapActionsToComponents]. *)
Definition actionToComponent (form : value) (i : nat) (action : value) : outcome node :=
  aprops ← actionProps form action;
  match Props.createFn props with
  | Some createFn => Ok (createFn FormAction aprops)
  | None => Ok (NElement FormAction (own_props aprops ∪ {[ "key" := VNum (Z.of_nat i) ]}))
  end.

(** [mapActionsToComponents(actions)]. *)
Definition mapActionsToComponents (actions : list value) : outcome (list node) :=
  formId ← getFormId;
  let form := formOf formId in
  map_outcome (actionToComponent form) 0 actions.

(** [mergeFieldData(structure, state)]. *)
Definition mergeFieldData (structure state : value) : outcome value :=
  data ← get state "data";
  messages ← get state "messages";
  valid ← get state "valid";
  v ← get state "value";
  Ok (Merge.recursive (VBool true) [
        structure;
        VObj {[ "data" := data; "messages" := messages;
                "valid" := valid; "value" := v ]} ]).


(** [render()]. *)
Definition render : outcome node :=
  formId ← getFormId;
  if negb (truthy formId) then Ok NNull
  else
    let formSchema := getFormSchema in
    let formState := formOf formId in
    if negb (truthy formSchema) then Ok NNull
    else
      schema ← get formSchema "schema";
      schemaAttributes ← get schema "attributes";
      class ← get schemaAttributes "class";
      enctype ← get schemaAttributes "enctype";
      let attributes := assign [
        schemaAttributes;
        VObj {[ "class" := VNull; "className" := class;
                "enctype" := VNull; "encType" := enctype ]} ] in
      fieldData ←
        (if truthy schema && truthy formState && truthy (prop formState "fields") then
           match prop schema "fields" with
           | VArr fs =>
               merged ← map_outcome (fun i f =>
                           s ← get_index (prop formState "fields") i;
                           mergeFieldData f s) 0 fs;
               Ok (VArr merged)
           | _ => TypeError
           end
         else Ok (prop schema "fields"));
      Ok (NElement Form {[
        "actions" := prop schema "actions";
        "attributes" := VObj attributes;
        "componentWillUnmount" := VFun "removeForm";
        "data" := prop schema "data";
        "fields" := fieldData;
        "formId" := formId;
        "handleSubmit" := VFun "handleSubmit";
        "mapActionsToComponents" := VFun "mapActionsToComponents";
        "mapFieldsToComponents" := VFun "mapFieldsToComponents" ]}).

End FormBuilderComponent.


(** ** The merge on a store of objects

    [mergeFieldData] once more, this time on a store in which objects and
    arrays are cells that are shared by reference and updated in place, as
    the [merge] package does.  This is the level at which it shows whether
    the arguments of [mergeFieldData] are touched. *)

Module Store.

Abbreviation loc := nat.

(** Primitive values, and references to objects and arrays. *)
Inductive val : Type :=
  | Undefined
  | Null
  | Bool (b : bool)
  | Num (z : Z)
  | Str (s : string)
  | Fun (name : string)
  | Ref (l : loc).

(** An object or an array: its properties, those of an array being its
    indices, in decimal. *)
Record cell : Type := Cell {
  is_array : bool;
  props : gmap string val;
}.

(** The store: the cell at index [l] is the object that [Ref l] denotes. *)
Abbreviation heap := (list cell).

(** Computations on the store.  [None] stands for no result: a reference
    that denotes nothing, or recursion that went deeper than the fuel. *)
Definition State (A : Type) : Type := heap -> option (A * heap).

#[global] Instance State_ret : MRet State := fun A a h => Some (a, h).
#[global] Instance State_bind : MBind State := fun A B f m h =>
  match m h with
  | Some (a, h') => f a h'
  | None => None
  end.

Definition alloc (c : cell) : State loc := fun h => Some (length h, h ++ [c]).

Definition load (l : loc) : State cell := fun h =>
  match h !! l with
  | Some c => Some (c, h)
  | None => None
  end.

Definition write (l : loc) (c : cell) : State unit := fun h =>
  match h !! l with
  | Some _ => Some (tt, <[l := c]> h)
  | None => None
  end.

(** A [for] loop over a list fixed at its start. *)
Fixpoint forM {A : Type} (l : list A) (body : A -> State unit) : State unit :=
  match l with
  | [] => mret tt
  | x :: rest => _ ← body x; forM rest body
  end.

Definition is_ref (v : val) : bool :=
  match v with Ref _ => true | _ => false end.

Definition nullish (v : val) : bool :=
  match v with Undefined | Null => true | _ => false end.

(** The characters of a string, by index. *)
Definition chars (s : string) : gmap string val :=
  list_to_map (imap (fun i c => (pretty i, Str (String c "")))
                    (String.list_ascii_of_string s)).

(** [v[key]], for [v] other than [undefined] and [null]. *)
Definition getp (v : val) (key : string) : State val :=
  match v with
  | Ref l => c ← load l; mret (default Undefined (props c !! key))
  | Str s => mret (default Undefined (chars s !! key))
  | _ => mret Undefined
  end.

(** [target[key] = v] on an object or array. *)
Definition setp (target : val) (key : string) (v : val) : State unit :=
  match target with
  | Ref l => c ← load l; write l (Cell (is_array c) (<[key := v]> (props c)))
  | _ => fun _ => None
  end.

(** The keys that [for (key in v)] runs through. *)
Definition keys (v : val) : State (list string) :=
  match v with
  | Ref l => c ← load l; mret (map_to_list (props c)).*1
  | Str s => mret (map_to_list (chars s)).*1
  | _ => mret []
  end.

(** Modelled from the spec: the type tag of the [merge] package, see
    [Merge.typeOf]. *)
Definition typeOf (v : val) : State string :=
  match v with
  | Undefined => mret "undefined"
  | Null => mret "null"
  | Bool _ => mret "boolean"
  | Num _ => mret "number"
  | Str _ => mret "string"
  | Fun _ => mret "function"
  | Ref l => c ← load l; mret (if is_array c then "array" else "object")
  end.

(** Modelled from the spec: [merge.clone], see [Merge.clone].  The copy of
    an array or object is allocated first and then filled, index by index
    or key by key, with the copies of the members. *)
Fixpoint clone (fuel : nat) (input : val) : State val :=
  match fuel with
  | 0 => fun _ => None
  | S fuel =>
      match input with
      | Ref l =>
          c ← load l;
          output ← alloc (Cell (is_array c) ∅);
          _ ← forM (if is_array c
                    then pretty <$> seq 0 (size (props c))
                    else (map_to_list (props c)).*1)
                   (fun index =>
                      x ← getp input index;
                      y ← clone fuel x;
                      setp (Ref output) index y);
          mret (Ref output)
      | _ => mret input
      end
  end.

(** Modelled from the spec: [merge_recursive(base, extend)] of the package,
    see [Merge.merge_recursive]; [base] is updated in place. *)
Fixpoint merge_recursive (fuel : nat) (base extend : val) : State val :=
  match fuel with
  | 0 => fun _ => None
  | S fuel =>
      tb ← typeOf base;
      if negb (String.eqb tb "object") then mret extend
      else
        ks ← keys extend;
        _ ← forM ks (fun key =>
               b ← getp base key;
               e ← getp extend key;
               tbk ← typeOf b;
               tek ← typeOf e;
               if String.eqb tbk "object" && String.eqb tek "object" then
                 r ← merge_recursive fuel b e;
                 setp base key r
               else setp base key e);
        mret base
  end.

(** Modelled from the spec: [merge(clone, recursive, argv)] of the package,
    see [Merge.merge]. *)
Definition merge (fuel : nat) (clone_mode recursive_mode : bool)
    (argv : list val) : State val :=
  let first := default Undefined (head argv) in
  tf ← typeOf first;
  result ← (if clone_mode || negb (String.eqb tf "object")
            then l ← alloc (Cell false ∅); mret (Ref l)
            else mret first);
  _ ← forM argv (fun item =>
         ti ← typeOf item;
         if negb (String.eqb ti "object") then mret tt
         else
           ks ← keys item;
           forM ks (fun key =>
             x ← getp item key;
             sitem ← (if clone_mode then clone fuel x else mret x);
             if recursive_mode then
               rk ← getp result key;
               r ← merge_recursive fuel rk sitem;
               setp result key r
             else setp result key sitem));
  mret result.

(** Modelled from the spec: [merge.recursive(clone, ...)]. *)
Definition recursive (fuel : nat) (clone_flag : val) (args : list val) : State val :=
  merge fuel (match clone_flag with Bool true => true | _ => false end) true
        (clone_flag :: args).

(** [mergeFieldData(structure, state)]: the object literal is allocated
    from the four properties read on [state], then merged with
    [structure] into a new object. *)
Definition mergeFieldData (fuel : nat) (structure state : val) : State (outcome val) :=
  if nullish state then mret TypeError
  else
    data ← getp state "data";
    messages ← getp state "messages";
    valid ← getp state "valid";
    value ← getp state "value";
    overlay ← alloc (Cell false {[ "data" := data; "messages" := messages;
                                   "valid" := valid; "value" := value ]});
    r ← recursive fuel (Bool true) [structure; Ref overlay];
    mret (Ok r).

(** *** Reading the store back

    The value that a store value denotes, as far as [fuel] levels down. *)
Fixpoint reify (fuel : nat) (h : heap) (v : val) : option value :=
  match fuel with
  | 0 => None
  | S fuel =>
      match v with
      | Undefined => Some VUndefined
      | Null => Some VNull
      | Bool b => Some (VBool b)
      | Num z => Some (VNum z)
      | Str s => Some (VStr s)
      | Fun name => Some (VFun name)
      | Ref l =>
          c ← h !! l;
          if is_array c then
            VArr <$> mapM (fun i => reify fuel h (default Undefined (props c !! pretty i)))
                          (seq 0 (size (props c)))
          else
            VObj <$> map_fold (fun k x acc =>
                                 m ← acc; t ← reify fuel h x; Some (<[k := t]> m))
                              (Some ∅) (props c)
      end
  end.

(** *** Shape of the store *)

(** [bounded d h v]: every chain of references that starts at [v] ends
    within [d] steps, on cells of [h]. *)
Fixpoint bounded (d : nat) (h : heap) (v : val) : bool :=
  match v with
  | Ref l =>
      match d with
      | 0 => false
      | S d =>
          match h !! l with
          | Some c => bool_decide (map_Forall (fun _ x => bounded d h x = true) (props c))
          | None => false
          end
      end
  | _ => true
  end.

(** [tree h d F v]: below [v] the store holds a tree of depth at most [d],
    made of cells at locations in [F], no cell being reached twice. *)
Inductive tree (h : heap) : nat -> (loc -> Prop) -> val -> Prop :=
  | tree_leaf d F v : is_ref v = false -> tree h d F v
  | tree_node d (F : loc -> Prop) l c (Fs : string -> loc -> Prop) :
      h !! l = Some c ->
      F l ->
      (forall k v, props c !! k = Some v -> tree h d (Fs k) v) ->
      (forall k l', Fs k l' -> F l' /\ l' <> l) ->
      (forall k1 k2 l', k1 <> k2 -> Fs k1 l' -> Fs k2 l' -> False) ->
      tree h (S d) F (Ref l).

(** [keeps n h h']: the store [h'] has the cells of [h] and holds the
    first [n] of them unchanged. *)
Definition keeps (n : nat) (h h' : heap) : Prop :=
  length h <= length h' /\ forall l, l < n -> h' !! l = h !! l.

(** The locations from [a] up to [b]. *)
Definition between (a b : nat) : loc -> Prop := fun l => a <= l < b.

(** The state of a copy under construction at [out]: the cells that were
    there before the copy began are unchanged, and the members filled in so
    far are trees on locations of their own, allocated after [out]. *)
Definition filling (h : heap) (d : nat) (array : bool) (hi : heap) : Prop :=
  let out := length h in
  keeps out h hi /\ out < length hi /\
  exists po (Fs : string -> loc -> Prop),
    hi !! out = Some (Cell array po) /\
    (forall k y, po !! k = Some y -> tree hi d (Fs k) y) /\
    (forall k l', Fs k l' -> out < l' < length hi) /\
    (forall k1 k2 l', k1 <> k2 -> Fs k1 l' -> Fs k2 l' -> False).

(** The state of a merge into the object at [lb], whose cell was [cb] when
    the merge began in store [h]: the members of [cb] under keys not yet
    visited are as they were, together with their trees. *)
Definition merging (h : heap) (Fb : loc -> Prop) (lb : loc) (cb : cell)
    (Fs : string -> loc -> Prop) (pre : list string) (hi : heap) : Prop :=
  length hi = length h /\
  (forall l, ~ Fb l -> hi !! l = h !! l) /\
  exists pb,
    hi !! lb = Some (Cell false pb) /\
    (forall k, k ∉ pre -> pb !! k = props cb !! k) /\
    (forall k l, k ∉ pre -> Fs k l -> hi !! l = h !! l).

(** *** Sample store: the [Title] field and its state *)

Definition sample : heap := [
  (* 0: titleField *)
  Cell false {[ "id" := Num 1; "name" := Str "Title"; "data" := Ref 1 ]};
  (* 1: titleField.data *)
  Cell false {[ "placeholder" := Str "..." ]};
  (* 2: titleState *)
  Cell false {[ "id" := Num 1; "value" := Str "Hello"; "data" := Ref 3;
                "messages" := Ref 4 ]};
  (* 3: titleState.data *)
  Cell false {[ "dirty" := Bool true ]};
  (* 4: titleState.messages *)
  Cell true ∅
].

End Store.

(** ** Notions used to state the properties *)

(** The name under which a field is submitted, in the words of the
    specification: the [name] of the schema field that has the [id] of the
    given field. *)
Definition submitName (schemaFields : list value) (field : value) : option string :=
  schemaField ← List.find (fun schemaField =>
                   strict_eq (prop schemaField "id") (prop field "id")) schemaFields;
  Some (to_key (prop schemaField "name")).

(** [n] successive calls of [fetch()], no response coming in between. *)
Fixpoint fetchTimes (props : Props.t) (n : nat) (w : world) : world :=
  match n with
  | 0 => w
  | S n => fetchTimes props n (fetch props VUndefined VUndefined w).2
  end.

(** The properties that a structural record contributes to a merge: those
    of a plain object, none otherwise. *)
Definition structuralProps (structure : value) : gmap string value :=
  if Merge.plain structure then own_props structure else ∅.

(** The four properties that [mergeFieldData] takes from the state of a
    field. *)
Definition stateKeys : gset string := {[ "data"; "messages"; "valid"; "value" ]}.

(** An argument of [fetch] that asks for its part of the response: [true],
    or left out, in which case the default [true] applies. *)
Definition requested (arg : value) : bool :=
  match arg with
  | VUndefined | VBool true => true
  | _ => false
  end.











(** ** Sample data

    A form with the two fields [Title] and [Content], as served by the
    schema endpoint, and the props of a component mounted on it. *)

Module Sample.

Definition injector : Injector := {|
  getComponentByName := fun name =>
    match name with
    | VStr "TextField" => Some (Registered "TextField")
    | _ => None
    end;
  getComponentByDataType := fun type =>
    match type with
    | VStr "String" => Some (Registered "TextField")
    | VStr "Hidden" => Some (Registered "HiddenField")
    | _ => None
    end;
|}.

Definition titleField : value :=
  VObj {[ "id" := VNum 1; "name" := VStr "Title"; "type" := VStr "String";
          "component" := VNull; "data" := VObj {[ "placeholder" := VStr "..." ]} ]}.

Definition contentField : value :=
  VObj {[ "id" := VNum 2; "name" := VStr "Content"; "type" := VStr "String";
          "component" := VStr "TextField" ]}.

Definition saveAction : value :=
  VObj {[ "name" := VStr "action_save"; "title" := VStr "Save" ]}.

Definition cancelAction : value :=
  VObj {[ "name" := VStr "action_cancel"; "title" := VStr "Cancel" ]}.

Definition schemaBody : value :=
  VObj {[ "attributes" := VObj {[ "action" := VStr "/admin/save";
                                  "method" := VStr "post";
                                  "class" := VStr "cms-edit-form";
                                  "enctype" := VStr "multipart/form-data" ]};
          "actions" := VArr [saveAction; cancelAction];
          "fields" := VArr [titleField; contentField];
          "data" := VArr [] ]}.

Definition formSchema : value :=
  VObj {[ "id" := VStr "EditForm"; "schema" := schemaBody ]}.

Definition titleState : value :=
  VObj {[ "id" := VNum 1; "value" := VStr "Hello"; "valid" := VBool true;
          "messages" := VArr []; "data" := VObj {[ "dirty" := VBool true ]} ]}.

Definition contentState : value :=
  VObj {[ "id" := VNum 2; "value" := VStr "World"; "valid" := VBool true;
          "messages" := VArr []; "data" := VArr [] ]}.

Definition formState : value :=
  VObj {[ "id" := VStr "EditForm"; "fields" := VArr [titleState; contentState] ]}.

(** The body of the response of the schema endpoint. *)
Definition json : value :=
  VObj {[ "id" := VStr "EditForm"; "schema" := schemaBody; "state" := formState ]}.

(** A response that carries state only. *)
Definition jsonStateOnly : value := VObj {[ "state" := formState ]}.

(** Props once both records are in the store. *)
Definition props : Props.t := {|
  Props.config := VObj {[ "SecurityID" := VStr "token" ]};
  Props.createFn := None;
  Props.form := {[ "EditForm" := formState ]};
  Props.handleSubmit := None;
  Props.schemas := {[ "admin/schema" := formSchema ]};
  Props.schemaUrl := "admin/schema";
|}.

(** Props before the response has come back. *)
Definition propsEmpty : Props.t := {|
  Props.config := VObj {[ "SecurityID" := VStr "token" ]};
  Props.createFn := None;
  Props.form := ∅;
  Props.handleSubmit := None;
  Props.schemas := ∅;
  Props.schemaUrl := "admin/schema";
|}.

End Sample.
(** * Properties *)

(** ** Induction on values *)

Lemma vsize_lookup (m : gmap string value) (k : string) (v : value) :
  m !! k = Some v -> vsize v < vsize (VObj m).
Proof.
  simpl. revert k v.
  induction m as [|k' v' m Hfresh Hfirst IH] using map_first_key_ind; intros k v.
  - by rewrite lookup_empty.
  - rewrite map_fold_insert_first_key by done.
    rewrite lookup_insert. case_decide as Hk; intros Hv; simplify_eq.
    + lia.
    + specialize (IH _ _ Hv). lia.
Qed.

Lemma vsize_elem (vs : list value) (v : value) :
  v ∈ vs -> vsize v < vsize (VArr vs).
Proof.
  simpl. induction 1 as [x l|x y l _ IH]; simpl; lia.
Qed.

Lemma value_ind (P : value -> Prop) :
  P VUndefined -> P VNull -> (forall b, P (VBool b)) -> (forall z, P (VNum z)) ->
  (forall s, P (VStr s)) -> (forall name, P (VFun name)) ->
  (forall vs, Forall P vs -> P (VArr vs)) ->
  (forall m, map_Forall (fun _ => P) m -> P (VObj m)) ->
  forall v, P v.
Proof.
  intros Hu Hn Hb Hz Hs Hf Ha Ho v.
  remember (vsize v) as n eqn:Hsize.
  revert v Hsize. induction n as [n IH] using lt_wf_ind. intros v ->.
  destruct v as [| |b|z|s|name|vs|m]; auto.
  - apply Ha, Forall_forall. intros x Hx.
    eapply IH; [by apply vsize_elem|done].
  - apply Ho. intros k x Hx.
    eapply IH; [by eapply vsize_lookup|done].
Qed.

(** ** Generic facts on the primitives *)

Lemma get_ok (v : value) (k : string) :
  nullish v = false -> get v k = Ok (prop v k).
Proof. unfold get. by intros ->. Qed.

Lemma get_nullish (v : value) (k : string) :
  nullish v = true -> get v k = TypeError.
Proof. unfold get. by intros ->. Qed.

Lemma truthy_not_nullish (v : value) : truthy v = true -> nullish v = false.
Proof. by destruct v. Qed.

Lemma typeof_undefined (v : value) :
  String.eqb (typeof v) "undefined" = is_undefined v.
Proof. by destruct v. Qed.

Lemma assign_two (a b : value) (k : string) :
  assign [a; b] !! k =
    match own_props b !! k with
    | Some v => Some v
    | None => own_props a !! k
    end.
Proof.
  unfold assign. simpl. rewrite (right_id_L ∅ (∪)), lookup_union.
  by destruct (own_props b !! k), (own_props a !! k).
Qed.

Lemma assign_one (a : value) : assign [a] = own_props a.
Proof. unfold assign. simpl. by rewrite (right_id_L ∅ (∪)). Qed.

Lemma map_outcome_length {A B : Type} (f : nat -> A -> outcome B) (l : list A) :
  forall i l', map_outcome f i l = Ok l' -> length l' = length l.
Proof.
  induction l as [|x l IH]; intros i l'; simpl.
  - by intros [= <-].
  - destruct (f i x) as [y|]; simpl; [|done].
    destruct (map_outcome f (S i) l) as [ys|] eqn:Hys; simpl; [|done].
    intros [= <-]. simpl. f_equal. eauto.
Qed.

Lemma map_outcome_lookup {A B : Type} (f : nat -> A -> outcome B) (l : list A) :
  forall i l' j x,
    map_outcome f i l = Ok l' -> l !! j = Some x ->
    exists y, f (i + j) x = Ok y /\ l' !! j = Some y.
Proof.
  induction l as [|a l IH]; intros i l' j x; simpl; [done|].
  destruct (f i a) as [y|] eqn:Hy; simpl; [|done].
  destruct (map_outcome f (S i) l) as [ys|] eqn:Hys; simpl; [|done].
  intros [= <-]. destruct j as [|j]; simpl.
  - intros [= <-]. exists y. by rewrite Nat.add_0_r.
  - intros Hx. destruct (IH _ _ _ _ Hys Hx) as (z & Hz & Hl).
    exists z. split; [|done]. by replace (i + S j) with (S i + j) by lia.
Qed.

Lemma map_outcome_total {A B : Type} (f : nat -> A -> outcome B) (l : list A) :
  forall i,
    (forall j x, l !! j = Some x -> exists y, f (i + j) x = Ok y) ->
    exists l', map_outcome f i l = Ok l'.
Proof.
  induction l as [|a l IH]; intros i Hf; simpl; [by eexists|].
  destruct (Hf 0 a eq_refl) as (y & Hy). rewrite Nat.add_0_r in Hy. rewrite Hy. simpl.
  destruct (IH (S i)) as (ys & Hys).
  - intros j x Hx. destruct (Hf (S j) x Hx) as (z & Hz).
    exists z. by replace (S i + j) with (i + S j) by lia.
  - rewrite Hys. simpl. by eexists.
Qed.

(** [getFormId] never throws: [schema.id] is only read on a truthy schema. *)
Lemma getFormId_ok (props : Props.t) :
  getFormId props =
    Ok (if truthy (getFormSchema props) then prop (getFormSchema props) "id"
        else VNull).
Proof.
  unfold getFormId. destruct (truthy (getFormSchema props)) eqn:Ht; [|done].
  by rewrite get_ok by by apply truthy_not_nullish.
Qed.

(** ** Arrays *)

Lemma indexed_lookup {A : Type} (f : A -> value) (l : list A) (i : nat) :
  indexed f l !! pretty i = f <$> l !! i.
Proof.
  unfold indexed.
  assert (NoDup (imap (fun j x => (pretty j, f x)) l).*1) as Hnodup.
  { rewrite fmap_imap.
    rewrite (imap_ext _ (fun j _ => pretty j)) by done.
    rewrite imap_seq_0. apply NoDup_fmap_2; [apply _|apply NoDup_seq]. }
  destruct (l !! i) as [x|] eqn:Hi; simpl.
  - apply elem_of_list_to_map_1; [done|].
    by apply (elem_of_lookup_imap_2 (fun j x => (pretty j, f x))).
  - apply not_elem_of_list_to_map_1. intros Hin.
    apply list_elem_of_fmap in Hin as ([k y] & Hk & Hin). simpl in Hk.
    apply elem_of_lookup_imap_1 in Hin as (j & z & Heq & Hj).
    injection Heq as Hkj _. rewrite <- Hk in Hkj.
    apply (inj pretty) in Hkj as <-. congruence.
Qed.

Lemma get_index_lookup (vs : list value) (i : nat) (x : value) :
  vs !! i = Some x -> get_index (VArr vs) i = Ok x.
Proof.
  intros Hi. unfold get_index, get. simpl.
  by rewrite indexed_lookup, Hi.
Qed.

(** ** The merge package on values *)

Lemma clone_id (v : value) : Merge.clone v = v.
Proof.
  induction v as [| | | | | |vs IH|m IH] using value_ind; simpl; try done.
  - f_equal. induction IH as [|x l Hx _ IHl]; [done|].
    rewrite fmap_cons. by rewrite Hx, IHl.
  - f_equal. apply map_eq. intros k. rewrite lookup_fmap.
    destruct (m !! k) as [x|] eqn:Hk; simpl; [|done].
    f_equal. by eapply IH.
Qed.

Lemma plain_object (v : value) : Merge.plain v = true <-> exists m, v = VObj m.
Proof.
  split.
  - destruct v; try done. by eexists.
  - by intros [m ->].
Qed.

Lemma merge_recursive_not_plain (base extend : value) :
  Merge.plain base = false -> Merge.merge_recursive base extend = extend.
Proof. by destruct base. Qed.

(** A recursive merge of two plain objects holds the keys of both; on a
    common key the two values are merged in turn when both are plain
    objects, and the value of [extend] stands otherwise. *)
Lemma merge_recursive_lookup (mb me : gmap string value) (k : string) :
  exists m,
    Merge.merge_recursive (VObj mb) (VObj me) = VObj m /\
    m !! k =
      match mb !! k, me !! k with
      | Some b, Some e =>
          Some (if Merge.plain b && Merge.plain e then Merge.merge_recursive b e else e)
      | Some b, None => Some b
      | None, o => o
      end.
Proof.
  eexists. split; [done|]. simpl.
  rewrite lookup_union, map_lookup_imap.
  destruct (mb !! k) as [b|], (me !! k) as [e|]; simpl; done.
Qed.

Lemma structuralProps_obj (m : gmap string value) : structuralProps (VObj m) = m.
Proof. done. Qed.

(** [merge.recursive(true, structure, overlay)] for a plain [overlay]. *)
Lemma recursive_clone_lookup (structure : value) (overlay : gmap string value) :
  exists m,
    Merge.recursive (VBool true) [structure; VObj overlay] = VObj m /\
    forall k,
      m !! k =
        match overlay !! k with
        | Some x =>
            Some (Merge.merge_recursive
                    (default VUndefined (structuralProps structure !! k)) x)
        | None => structuralProps structure !! k
        end.
Proof.
  eexists. split; [done|]. intros k. simpl.
  rewrite lookup_union, map_lookup_imap.
  assert ((if Merge.plain structure
           then map_imap (fun key x =>
                            Some (Merge.merge_recursive
                                    (default VUndefined ((∅ : gmap string value) !! key))
                                    (Merge.clone x)))
                         (own_props structure) ∪ ∅
           else ∅) = structuralProps structure) as ->.
  { unfold structuralProps. destruct (Merge.plain structure); [|done].
    rewrite (right_id_L ∅ (∪)). apply map_eq. intros j.
    rewrite map_lookup_imap. destruct (own_props structure !! j); simpl; [|done].
    by rewrite lookup_empty, clone_id. }
  destruct (overlay !! k) as [x|]; simpl.
  - rewrite clone_id. by destruct (structuralProps structure !! k).
  - by destruct (structuralProps structure !! k).
Qed.

(** ** Schema fetcher *)

(** Two calls of [fetch] on a fresh instance, the first request still
    outstanding when the second call is made: the second call issues a
    second request and returns another promise. *)
Lemma fetch_twice_two_requests :
  let '(r1, w1) := fetch Sample.propsEmpty VUndefined VUndefined constructed in
  let '(r2, w2) := fetch Sample.propsEmpty VUndefined VUndefined w1 in
  r1 = Ok (Some 0) /\ outstanding w1 0 /\
  r2 = Ok (Some 1) /\ length (requests w2) = 2.
Proof.
  vm_compute. repeat split; try lia.
  intros H. by apply elem_of_nil in H.
Qed.

(** C1 (amended).  [fetch] hands back the stored promise, issuing no
    request, exactly when the [isFetching] flag of the instance is set; with
    the flag clear it issues one request, and stores and returns the promise
    of that request.  [fetch] never changes the flag. *)
Theorem fetch_guarded_by_isFetching (props : Props.t) (schema state : value) (w : world) :
  let '(r, w') := fetch props schema state w in
  isFetching w' = isFetching w /\
  (if isFetching w
   then r = Ok (formSchemaPromise w) /\ w' = w
   else exists req,
          requests w' = requests w ++ [req] /\
          req_url req = Props.schemaUrl props /\
          r = Ok (Some (length (requests w))) /\
          formSchemaPromise w' = Some (length (requests w)) /\
          dispatched w' = dispatched w).
Proof.
  unfold fetch. destruct (isFetching w) eqn:Hf; simpl.
  - by rewrite Hf.
  - split; [done|]. eexists. by repeat split.
Qed.

(** On an instance whose flag is clear, as the constructor leaves it, every
    call issues a request, whatever the number of requests outstanding. *)
Lemma fetchTimes_requests (props : Props.t) (n : nat) (w : world) :
  isFetching w = false ->
  isFetching (fetchTimes props n w) = false /\
  responded (fetchTimes props n w) = responded w /\
  length (requests (fetchTimes props n w)) = length (requests w) + n /\
  (0 < n -> formSchemaPromise (fetchTimes props n w)
              = Some (length (requests w) + n - 1)).
Proof.
  revert w. induction n as [|n IH]; intros w Hflag; simpl.
  - split_and!; try done; lia.
  - set (w1 := (fetch props VUndefined VUndefined w).2).
    assert (isFetching w1 = false /\ responded w1 = responded w /\
            length (requests w1) = length (requests w) + 1 /\
            formSchemaPromise w1 = Some (length (requests w)))
      as (Hflag1 & Hresponded1 & Hlen1 & Hpromise1).
    { unfold w1, fetch. rewrite Hflag. simpl. rewrite length_app. simpl.
      by split_and!. }
    destruct (IH w1 Hflag1) as (Hf & Hr & Hlen & Hp).
    split_and!; [done|congruence|lia|].
    intros _. destruct (decide (n = 0)) as [->|Hn].
    + simpl. fold w1. rewrite Hpromise1. f_equal. lia.
    + rewrite Hp by lia. f_equal. lia.
Qed.

(** What [fetch_then] dispatches: at most a set-schema action followed by
    at most an add-form action, each guarded by the id of its record. *)
Lemma fetch_then_dispatched (props : Props.t) (json : value) (w : world) :
  let formSchema := VObj {[ "id" := prop json "id"; "schema" := prop json "schema" ]} in
  let formState := VObj (assign [prop json "state"]) in
  exists (setSchema addForm : bool),
    dispatched (fetch_then props json w).2 =
      dispatched w ++ (if setSchema then [SetSchema formSchema] else [])
                   ++ (if addForm then [AddForm formState] else []) /\
    (setSchema = true -> is_undefined (prop json "id") = false) /\
    (addForm = true -> is_undefined (prop formState "id") = false) /\
    (nullish json = false -> is_undefined (prop json "id") = true ->
       (fetch_then props json w).1 = Ok tt /\
       addForm = negb (is_undefined (prop formState "id"))).
Proof.
  intros formSchema formState. unfold fetch_then.
  destruct (nullish json) eqn:Hjson.
  { exists false, false. rewrite (get_nullish json "id") by done.
    unfold mbind, M_bind, lift. simpl. by rewrite app_nil_r. }
  rewrite !(get_ok json) by done.
  unfold mbind, M_bind, lift, mret, M_ret, get_index. simpl.
  rewrite !typeof_undefined. fold formState.
  rewrite lookup_insert_eq. simpl.
  destruct (is_undefined (prop json "id")) eqn:Hid; simpl.
  - destruct (is_undefined (prop formState "id")) eqn:Hst;
      simpl in Hst |- *; rewrite Hst; simpl.
    + exists false, false. by rewrite app_nil_r.
    + by exists false, true.
  - repeat match goal with
           | |- context [get ?v ?k] => destruct (get v k); simpl
           | |- context [gt_zero ?v] => destruct (gt_zero v); simpl
           end;
      try (exists false, false; rewrite app_nil_r; done).
      all: destruct (is_undefined (prop formState "id")) eqn:Hst;
       simpl in Hst |- *; rewrite Hst; simpl.
      all: try (exists true, false; done).
      all: try (exists true, true; rewrite <- ?app_assoc; done).
Qed.

(** C6.  When the response carries no top-level [id], [fetch_then]
    dispatches no set-schema action; an add-form action is dispatched only
    for a state record whose [id] is defined, and, the schema record being
    absent, it is dispatched whenever that [id] is defined. *)
Theorem fetch_then_publishes_by_id (props : Props.t) (json : value) (w : world) :
  let formState := VObj (assign [prop json "state"]) in
  exists new,
    dispatched (fetch_then props json w).2 = dispatched w ++ new /\
    (is_undefined (prop json "id") = true -> forall s, SetSchema s ∉ new) /\
    (forall s, AddForm s ∈ new ->
       s = formState /\ is_undefined (prop s "id") = false) /\
    (nullish json = false -> is_undefined (prop json "id") = true ->
       (fetch_then props json w).1 = Ok tt /\
       new = if is_undefined (prop formState "id") then []
             else [AddForm formState]).
Proof.
  intros formState.
  destruct (fetch_then_dispatched props json w)
    as (setSchema & addForm & Hnew & Hset & Hadd & Hindep).
  eexists. split; [exact Hnew|]. fold formState in Hadd, Hindep |- *.
  split; [|split].
  - intros Hid s Hs.
    destruct setSchema; [rewrite Hset in Hid by done; done|].
    destruct addForm; simpl in Hs;
      rewrite ?elem_of_cons, ?elem_of_nil in Hs; naive_solver.
  - intros s Hs.
    assert (addForm = true /\ s = formState) as [-> ->].
    { destruct setSchema, addForm; simpl in Hs;
        rewrite ?elem_of_cons, ?elem_of_nil in Hs; naive_solver. }
    auto.
  - intros Hjson Hid. destruct (Hindep Hjson Hid) as [Hok ->].
    split; [done|].
    destruct setSchema; [rewrite Hset in Hid by done; done|].
    by destruct (is_undefined (prop formState "id")).
Qed.

(** The response of the sample: both records are published, the schema
    first, and the submit endpoint is bound to the action URL with the
    security token and the first action as default data. *)
Example fetch_then_sample :
  let w := (fetch_then Sample.props Sample.json constructed).2 in
  dispatched w =
    [SetSchema (VObj {[ "id" := VStr "EditForm"; "schema" := Sample.schemaBody ]});
     AddForm Sample.formState] /\
  submitApi w =
    Some {| url := VStr "/admin/save"; method := VStr "post";
            defaultData := {[ "SecurityID" := VStr "token";
                              "action_save" := VNum 1 ]} |}.
Proof. by vm_compute. Qed.

(** A response with state only: the state is published, the schema is
    not. *)
Example fetch_then_state_only :
  fetch_then Sample.props Sample.jsonStateOnly constructed =
    (Ok tt, {| formSchemaPromise := None; isFetching := false; submitApi := None;
               requests := []; responded := [];
               dispatched := [AddForm Sample.formState]; prevented := [] |}).
Proof. by vm_compute. Qed.

(** A response with an id whose schema lacks the attributes: the callback
    throws before it publishes anything, the state included. *)
Example fetch_then_throws :
  fetch_then Sample.props
    (VObj {[ "id" := VStr "EditForm"; "schema" := VObj {[ "actions" := VArr [] ]};
             "state" := Sample.formState ]}) constructed
  = (TypeError, constructed).
Proof. by vm_compute. Qed.

(** ** Event dispatcher *)

(** C7.  With a custom function, [handleFieldUpdate] is the call of that
    function on the form id and on the default update action, and dispatches
    nothing by itself; without one, it is the default update action applied
    to the form id and to the updates it was given. *)
Theorem handleFieldUpdate_routes (props : Props.t) (ev : event) (updates : value) :
  exists formId,
    getFormId props = Ok formId /\
    (forall fn w,
       handleFieldUpdate props ev updates (Some fn) w = fn formId updateField w) /\
    (forall w,
       handleFieldUpdate props ev updates (Some (fun _ _ => mret tt)) w = (Ok tt, w)) /\
    (forall w,
       handleFieldUpdate props ev updates None w = updateField formId updates w /\
       (handleFieldUpdate props ev updates None w).1 = Ok tt /\
       dispatched (handleFieldUpdate props ev updates None w).2 =
         dispatched w ++ [UpdateField formId updates]).
Proof.
  eexists. split; [apply getFormId_ok|].
  unfold handleFieldUpdate. rewrite getFormId_ok.
  by repeat split.
Qed.

(** ** Rendering *)

(** C8.  When the store holds no schema under the configured URL, or holds
    one without a form id (its [id] is absent, or falsy), [render] returns
    [null] and does not throw. *)
Theorem render_nothing_without_schema (props : Props.t)
    (Hmissing : Props.schemas props !! Props.schemaUrl props = None \/
                exists schema,
                  Props.schemas props !! Props.schemaUrl props = Some schema /\
                  truthy (prop schema "id") = false) :
  render props = Ok NNull.
Proof.
  unfold render. rewrite getFormId_ok. unfold getFormSchema.
  destruct Hmissing as [-> | (schema & -> & Hid)]; simpl; [done|].
  destruct (truthy schema); simpl; [|done]. by rewrite Hid.
Qed.

Lemma render_nothing_without_schema_witness :
  render Sample.propsEmpty = Ok NNull.
Proof.
  apply render_nothing_without_schema. left. reflexivity.
Defined.

(** The same form once its schema is in the store while its state is not:
    the fields are the structural ones. *)
Example render_schema_only :
  exists config,
    render {| Props.config := VNull; Props.createFn := None; Props.form := ∅;
              Props.handleSubmit := None;
              Props.schemas := {[ "admin/schema" := Sample.formSchema ]};
              Props.schemaUrl := "admin/schema" |}
      = Ok (NElement Form config) /\
    config !! "fields" = Some (VArr [Sample.titleField; Sample.contentField]).
Proof. eexists. split; [by vm_compute|]. by vm_compute. Qed.

(** ** Field and action mapper *)

Lemma fieldComponent_ok (injector : Injector) (field : value) :
  nullish field = false ->
  fieldComponent injector field =
    Ok (if strict_eq (prop field "component") VNull
        then getComponentByDataType injector (prop field "type")
        else getComponentByName injector (prop field "component")).
Proof.
  intros Hfield. unfold fieldComponent. rewrite !get_ok by done. simpl.
  by destruct (strict_eq (prop field "component") VNull).
Qed.

(** A field that carries no [component] property while its data type is
    registered: the lookup goes by name, on [undefined], and the field is
    dropped. *)
Lemma fieldComponent_absent_name_not_by_type :
  let field := VObj {[ "name" := VStr "Title"; "type" := VStr "String" ]} in
  prop field "component" = VUndefined /\
  getComponentByDataType Sample.injector (prop field "type")
    = Some (Registered "TextField") /\
  fieldComponent Sample.injector field = Ok None /\
  mapFieldsToComponents Sample.injector Sample.props [field] = Ok [NNull].
Proof. by vm_compute. Qed.

(** C5 (amended).  The component of a field is looked up by name whenever
    the [component] property of the field is not [null], a field without
    that property included, and by data type when it is [null]; when the
    registry has no component for it, the callback returns [null] in place
    of an element and does not throw. *)
Theorem fieldComponent_by_name_unless_null (injector : Injector) (props : Props.t)
    (i : nat) (field : value) (Hfield : nullish field = false) :
  (prop field "component" = VNull ->
     fieldComponent injector field =
       Ok (getComponentByDataType injector (prop field "type"))) /\
  (prop field "component" <> VNull ->
     fieldComponent injector field =
       Ok (getComponentByName injector (prop field "component"))) /\
  (fieldComponent injector field = Ok None ->
     fieldToComponent injector props i field = Ok NNull).
Proof.
  rewrite fieldComponent_ok by done. split; [|split].
  - by intros ->.
  - intros Hname. by destruct (prop field "component").
  - intros Hnone. unfold fieldToComponent.
    rewrite fieldComponent_ok by done. by rewrite Hnone.
Qed.

Lemma fieldComponent_by_name_unless_null_witness :
  fieldComponent Sample.injector Sample.titleField = Ok (Some (Registered "TextField")) /\
  fieldComponent Sample.injector Sample.contentField = Ok (Some (Registered "TextField")).
Proof.
  split.
  - pose proof (fieldComponent_by_name_unless_null Sample.injector Sample.props 0
                  Sample.titleField eq_refl) as (Htype & _ & _).
    rewrite Htype by reflexivity. reflexivity.
  - pose proof (fieldComponent_by_name_unless_null Sample.injector Sample.props 1
                  Sample.contentField eq_refl) as (_ & Hname & _).
    rewrite Hname by (vm_compute; discriminate). reflexivity.
Defined.

(** The element built for a field whose component is [Component]. *)
Lemma fieldToComponent_resolved (injector : Injector) (props : Props.t)
    (i : nat) (field : value) (Component : component) :
  fieldComponent injector field = Ok (Some Component) ->
  fieldToComponent injector props i field =
    Ok (let fprops := <["onChange" := VFun "handleFieldUpdate"]> (own_props field) in
        match Props.createFn props with
        | Some createFn => createFn Component (VObj fprops)
        | None => NElement Component (fprops ∪ {[ "key" := VNum (Z.of_nat i) ]})
        end).
Proof.
  intros HC. unfold fieldToComponent. rewrite HC. simpl.
  assert (assign [field; VObj {[ "onChange" := VFun "handleFieldUpdate" ]}]
          = <["onChange" := VFun "handleFieldUpdate"]> (own_props field)) as ->.
  { unfold assign. simpl. rewrite (right_id_L ∅ (∪)).
    by rewrite insert_union_singleton_l. }
  by destruct (Props.createFn props).
Qed.

(** C10.  [mapFieldsToComponents] returns one entry per field, in order: a
    field whose component is not found yields [null] at its own position,
    every other field the element built for it. *)
Theorem mapFieldsToComponents_positions (injector : Injector) (props : Props.t)
    (fields : list value) (Hfields : Forall (fun field => nullish field = false) fields) :
  exists nodes,
    mapFieldsToComponents injector props fields = Ok nodes /\
    length nodes = length fields /\
    forall i field,
      fields !! i = Some field ->
      nodes !! i = Some match fieldComponent injector field with
                        | Ok (Some Component) =>
                            let fprops :=
                              <["onChange" := VFun "handleFieldUpdate"]> (own_props field) in
                            match Props.createFn props with
                            | Some createFn => createFn Component (VObj fprops)
                            | None =>
                                NElement Component
                                  (fprops ∪ {[ "key" := VNum (Z.of_nat i) ]})
                            end
                        | _ => NNull
                        end.
Proof.
  assert (forall i field, fields !! i = Some field ->
            fieldToComponent injector props i field =
              Ok match fieldComponent injector field with
                 | Ok (Some Component) =>
                     let fprops :=
                       <["onChange" := VFun "handleFieldUpdate"]> (own_props field) in
                     match Props.createFn props with
                     | Some createFn => createFn Component (VObj fprops)
                     | None =>
                         NElement Component
                           (fprops ∪ {[ "key" := VNum (Z.of_nat i) ]})
                     end
                 | _ => NNull
                 end) as Hcb.
  { intros i field Hi.
    assert (nullish field = false) as Hfield
      by (eapply (proj1 (Forall_lookup _ _) Hfields); eauto).
    destruct (fieldComponent injector field) as [[Component|]|] eqn:HC.
    - by apply fieldToComponent_resolved.
    - unfold fieldToComponent. by rewrite HC.
    - rewrite fieldComponent_ok in HC by done. done. }
  destruct (map_outcome_total (fieldToComponent injector props) fields 0)
    as (nodes & Hnodes).
  { intros j x Hx. eexists. by apply Hcb. }
  exists nodes. split; [done|]. split; [by eapply map_outcome_length|].
  intros i field Hi.
  destruct (map_outcome_lookup _ _ _ _ _ _ Hnodes Hi) as (y & Hy & ->).
  simpl in Hy. rewrite Hcb in Hy by done. by injection Hy as <-.
Qed.

Lemma mapFieldsToComponents_positions_witness :
  exists nodes,
    mapFieldsToComponents Sample.injector Sample.props
      [Sample.titleField; VObj {[ "component" := VStr "Unknown" ]}; Sample.contentField]
      = Ok nodes /\
    length nodes = 3 /\ nodes !! 1 = Some NNull.
Proof.
  destruct (mapFieldsToComponents_positions Sample.injector Sample.props
              [Sample.titleField; VObj {[ "component" := VStr "Unknown" ]};
               Sample.contentField])
    as (nodes & Hok & Hlen & Hpos).
  - repeat constructor.
  - exists nodes. split; [exact Hok|]. split; [exact Hlen|].
    exact (Hpos 1 _ eq_refl).
Defined.







(** ** Submission *)

Lemma find_schemaField_find (schemaFields : list value) (curr : value) :
  Forall (fun schemaField => nullish schemaField = false) schemaFields ->
  nullish curr = false ->
  find_schemaField schemaFields curr =
    Ok (default VUndefined
          (List.find (fun schemaField =>
                        strict_eq (prop schemaField "id") (prop curr "id"))
                     schemaFields)).
Proof.
  intros Hsfs Hcurr. induction Hsfs as [|schemaField rest Hsf _ IH]; simpl; [done|].
  rewrite !get_ok by done. simpl.
  by destruct (strict_eq (prop schemaField "id") (prop curr "id")).
Qed.

Lemma find_not_nullish (f : value -> bool) (l : list value) (x : value) :
  Forall (fun y => nullish y = false) l -> List.find f l = Some x -> nullish x = false.
Proof.
  intros Hl Hx. apply find_some in Hx as [Hin _].
  rewrite Forall_forall in Hl. apply Hl. by apply list_elem_of_In.
Qed.

(** One step of the reducer of [handleSubmit]. *)
Lemma fieldValues_step_insert (schemaFields : list value) (acc : gmap string value)
    (curr : value) (name : string) :
  Forall (fun schemaField => nullish schemaField = false) schemaFields ->
  nullish curr = false ->
  submitName schemaFields curr = Some name ->
  fieldValues_step (VArr schemaFields) (VObj acc) curr =
    Ok (VObj (<[name := prop curr "value"]> acc)).
Proof.
  intros Hsfs Hcurr Hname. unfold fieldValues_step, submitName in *.
  rewrite find_schemaField_find by done.
  destruct (List.find _ schemaFields) as [schemaField|] eqn:Hfind; [|done].
  simpl in Hname |- *. injection Hname as <-.
  rewrite !get_ok by eauto using find_not_nullish. simpl.
  do 2 f_equal. unfold assign. simpl. rewrite (right_id_L ∅ (∪)).
  by rewrite insert_union_singleton_l.
Qed.

(** The reduction as a whole: each key holds the value of the last field
    submitted under it. *)
Lemma reduce_fieldValues (schemaFields fields : list value) :
  Forall (fun schemaField => nullish schemaField = false) schemaFields ->
  Forall (fun curr => nullish curr = false /\ is_Some (submitName schemaFields curr))
         fields ->
  forall acc,
  exists m,
    reduce (fieldValues_step (VArr schemaFields)) fields (VObj acc) = Ok (VObj m) /\
    forall k,
      m !! k =
        match last (filter (fun curr => submitName schemaFields curr = Some k) fields) with
        | Some curr => Some (prop curr "value")
        | None => acc !! k
        end.
Proof.
  intros Hsfs Hfields. induction Hfields as [|curr rest [Hcurr [name Hname]] _ IH];
    intros acc; simpl.
  - by exists acc.
  - rewrite (fieldValues_step_insert _ _ _ name) by done. simpl.
    destruct (IH (<[name := prop curr "value"]> acc)) as (m & -> & Hm).
    exists m. split; [done|]. intros k. rewrite Hm.
    rewrite filter_cons. case_decide as Hk.
    + rewrite last_cons.
      destruct (last (filter _ rest)); [done|].
      rewrite Hname in Hk. injection Hk as ->. by rewrite lookup_insert_eq.
    + destruct (last (filter _ rest)); [done|].
      rewrite lookup_insert_ne; [done|]. intros ->. by rewrite Hname in Hk.
Qed.

(** C3.  [handleSubmit] builds the payload by mapping, for each field of the
    form state, the [name] of the schema field with the same [id] to the
    current [value] of the field, and passes that payload on: to the submit
    handler of the props when there is one, together with the closure that
    submits, and otherwise to [submitForm], after [preventDefault]. *)
Theorem handleSubmit_payload (props : Props.t) (schema formId : value)
    (schemaFields fields : list value)
    (Hschema : get (getFormSchema props) "schema" = Ok schema)
    (HschemaFields : get schema "fields" = Ok (VArr schemaFields))
    (HformId : getFormId props = Ok formId)
    (Hfields : get (formOf props formId) "fields" = Ok (VArr fields))
    (Hobjects : Forall (fun schemaField => nullish schemaField = false) schemaFields)
    (Hnamed : Forall (fun curr => nullish curr = false /\
                                  is_Some (submitName schemaFields curr)) fields) :
  exists payload,
    fieldValues props = Ok (VObj payload) /\
    (forall k,
       payload !! k =
         (fun curr => prop curr "value") <$>
           last (filter (fun curr => submitName schemaFields curr = Some k) fields)) /\
    (forall custom ev w,
       Props.handleSubmit props = Some custom ->
       handleSubmit props ev w =
         custom ev (VObj payload) (submitFn props (VObj payload)) w) /\
    (forall ev w,
       Props.handleSubmit props = None ->
       (handleSubmit props ev w).1 = Ok tt /\
       prevented (handleSubmit props ev w).2 = prevented w ++ [ev] /\
       dispatched (handleSubmit props ev w).2 =
         dispatched w ++ [SubmitForm (submitApi w) formId (VObj payload)]).
Proof.
  destruct (reduce_fieldValues schemaFields fields Hobjects Hnamed ∅)
    as (payload & Hreduce & Hpayload).
  assert (fieldValues props = Ok (VObj payload)) as Hvalues.
  { unfold fieldValues. rewrite Hschema. simpl. rewrite HschemaFields. simpl.
    rewrite HformId. simpl. rewrite Hfields. simpl. exact Hreduce. }
  exists payload. split; [done|]. split; [|split].
  - intros k. rewrite Hpayload.
    destruct (last (filter _ fields)); [done|]. by rewrite lookup_empty.
  - intros custom ev w Hcustom. unfold handleSubmit. rewrite Hvalues, Hcustom. done.
  - intros ev w Hnone. unfold handleSubmit, submitFn. rewrite Hvalues, Hnone, HformId.
    done.
Qed.

(** The example of the specification. *)
Lemma handleSubmit_payload_witness :
  exists payload,
    fieldValues Sample.props = Ok (VObj payload) /\
    payload = {[ "Title" := VStr "Hello"; "Content" := VStr "World" ]} /\
    dispatched (handleSubmit Sample.props 0 constructed).2 =
      [SubmitForm None (VStr "EditForm") (VObj payload)].
Proof.
  destruct (handleSubmit_payload Sample.props Sample.schemaBody (VStr "EditForm")
              [Sample.titleField; Sample.contentField]
              [Sample.titleState; Sample.contentState]
              eq_refl eq_refl eq_refl eq_refl)
    as (payload & Hvalues & _ & _ & Hdefault).
  - repeat constructor.
  - repeat constructor; by eexists.
  - exists payload. split; [exact Hvalues|]. split.
    + vm_compute in Hvalues. by injection Hvalues as <-.
    + by destruct (Hdefault 0 constructed eq_refl) as (_ & _ & ->).
Defined.

(** A state field whose id no schema field has: [find] returns [undefined]
    and reading its [name] throws. *)
Example handleSubmit_unknown_id_throws :
  let props := {|
    Props.config := VNull; Props.createFn := None;
    Props.form := {[ "EditForm" :=
      VObj {[ "fields" := VArr [VObj {[ "id" := VNum 3; "value" := VStr "?" ]}] ]} ]};
    Props.handleSubmit := None;
    Props.schemas := {[ "admin/schema" := Sample.formSchema ]};
    Props.schemaUrl := "admin/schema" |} in
  handleSubmit props 0 constructed = (TypeError, constructed).
Proof. by vm_compute. Qed.

(** A submit handler that validates and does not submit: the component
    neither dispatches nor suppresses the event itself. *)
Example handleSubmit_custom_handler :
  let props := {|
    Props.config := VNull; Props.createFn := None;
    Props.form := Props.form Sample.props;
    Props.handleSubmit := Some (fun _ _ _ => mret tt);
    Props.schemas := Props.schemas Sample.props;
    Props.schemaUrl := "admin/schema" |} in
  handleSubmit props 0 constructed = (Ok tt, constructed).
Proof. by vm_compute. Qed.

(** ** Field-state merger *)

Lemma overlay_lookup (state : value) (k : string) :
  ({[ "data" := prop state "data"; "messages" := prop state "messages";
      "valid" := prop state "valid"; "value" := prop state "value" ]}
     : gmap string value) !! k =
  if decide (k ∈ stateKeys) then Some (prop state k) else None.
Proof.
  unfold stateKeys. case_decide as Hk.
  - rewrite !elem_of_union, !elem_of_singleton in Hk.
    destruct Hk as [[[-> | ->] | ->] | ->]; by simplify_map_eq.
  - rewrite !not_elem_of_union, !not_elem_of_singleton in Hk.
    destruct Hk as [[[? ?] ?] ?]. by simplify_map_eq.
Qed.

(** The record built by [mergeFieldData]: the properties of the structure
    and the four state properties; outside these four the structure is
    kept, on each of them the state value is merged recursively into the
    structural one, so that the state value stands whenever the structural
    value is not a plain object. *)
Lemma mergeFieldData_merged (structure state : value) :
  nullish state = false ->
  exists m,
    mergeFieldData structure state = Ok (VObj m) /\
    dom m = dom (structuralProps structure) ∪ stateKeys /\
    (forall k, k ∉ stateKeys -> m !! k = structuralProps structure !! k) /\
    (forall k, k ∈ stateKeys ->
       m !! k = Some (Merge.merge_recursive
                        (default VUndefined (structuralProps structure !! k))
                        (prop state k))) /\
    (forall k, k ∈ stateKeys ->
       Merge.plain (default VUndefined (structuralProps structure !! k)) = false ->
       m !! k = Some (prop state k)).
Proof.
  intros Hstate. unfold mergeFieldData. rewrite !get_ok by done. simpl.
  destruct (recursive_clone_lookup structure
              {[ "data" := prop state "data"; "messages" := prop state "messages";
                 "valid" := prop state "valid"; "value" := prop state "value" ]})
    as (m & -> & Hm).
  exists m. split; [done|].
  assert (forall k, k ∉ stateKeys -> m !! k = structuralProps structure !! k) as Hout.
  { intros k Hk. rewrite Hm, overlay_lookup. by rewrite decide_False. }
  assert (forall k, k ∈ stateKeys ->
            m !! k = Some (Merge.merge_recursive
                             (default VUndefined (structuralProps structure !! k))
                             (prop state k))) as Hin.
  { intros k Hk. rewrite Hm, overlay_lookup. by rewrite decide_True. }
  split_and!; try done.
  - apply set_eq. intros k. rewrite elem_of_union, !elem_of_dom.
    destruct (decide (k ∈ stateKeys)) as [Hk|Hk].
    + rewrite Hin by done. naive_solver.
    + rewrite Hout by done. naive_solver.
  - intros k Hk Hplain. rewrite Hin by done.
    by rewrite merge_recursive_not_plain.
Qed.

Lemma truthy_prop (v : value) (k : string) :
  truthy (prop v k) = true -> truthy v = true.
Proof.
  destruct v as [| |b|z|s|name|vs|m]; try done.
  destruct s; [|done]. unfold prop, own_props, indexed.
  change (list_to_map _) with (∅ : gmap string value).
  rewrite lookup_empty. by destruct (String.eqb k "length").
Qed.



(** A state entry shorter than the schema makes [render] throw: the merge
    reads [state.data] on [undefined]. *)
Example render_throws_on_missing_state_entry :
  render {| Props.config := VNull; Props.createFn := None;
            Props.form := {[ "EditForm" :=
              VObj {[ "id" := VStr "EditForm"; "fields" := VArr [Sample.titleState] ]} ]};
            Props.handleSubmit := None;
            Props.schemas := {[ "admin/schema" := Sample.formSchema ]};
            Props.schemaUrl := "admin/schema" |}
    = TypeError.
Proof. by vm_compute. Qed.

(** The merge of the [Title] field of the sample: the two [data] objects
    are merged key by key. *)
Example mergeFieldData_title :
  mergeFieldData Sample.titleField Sample.titleState =
    Ok (VObj {[ "id" := VNum 1; "name" := VStr "Title"; "type" := VStr "String";
                "component" := VNull;
                "data" := VObj {[ "placeholder" := VStr "..."; "dirty" := VBool true ]};
                "messages" := VArr []; "valid" := VBool true;
                "value" := VStr "Hello" ]}).
Proof. by vm_compute. Qed.

(** ** The merge on the store: termination, freshness and frame *)

Module StoreFacts.
Import Store.

Lemma keeps_refl (n : nat) (h : heap) : keeps n h h.
Proof. by split. Qed.

Lemma keeps_trans (n : nat) (h1 h2 h3 : heap) :
  keeps n h1 h2 -> keeps n h2 h3 -> keeps n h1 h3.
Proof.
  intros [Hlen1 Hold1] [Hlen2 Hold2]. split; [lia|].
  intros l Hl. by rewrite Hold2, Hold1.
Qed.

Lemma keeps_le (n m : nat) (h h' : heap) : n <= m -> keeps m h h' -> keeps n h h'.
Proof. intros Hnm [Hlen Hold]. split; [done|]. intros l Hl. apply Hold. lia. Qed.

(** *** The primitives *)

Lemma getp_ref (h : heap) (l : loc) (c : cell) (k : string) :
  h !! l = Some c ->
  getp (Ref l) k h = Some (default Undefined (props c !! k), h).
Proof. intros Hl. unfold getp, load, mbind, State_bind. by rewrite Hl. Qed.

Lemma getp_leaf (h : heap) (v : val) (k : string) :
  is_ref v = false ->
  exists x, getp v k h = Some (x, h) /\ is_ref x = false.
Proof.
  destruct v as [| | | |s| |l]; try done; intros _; try by exists Undefined.
  exists (default Undefined (chars s !! k)). split; [done|].
  destruct (chars s !! k) as [x|] eqn:Hx; [|done]. simpl.
  unfold chars in Hx. apply elem_of_list_to_map_2 in Hx.
  apply elem_of_lookup_imap_1 in Hx as (i & c & Heq & _). by injection Heq as _ ->.
Qed.

Lemma setp_ref (h : heap) (l : loc) (c : cell) (k : string) (v : val) :
  h !! l = Some c ->
  setp (Ref l) k v h =
    Some (tt, <[l := Cell (is_array c) (<[k := v]> (props c))]> h).
Proof. intros Hl. unfold setp, load, write, mbind, State_bind. by rewrite Hl, Hl. Qed.

Lemma typeOf_ref (h : heap) (l : loc) (c : cell) :
  h !! l = Some c ->
  typeOf (Ref l) h = Some (if is_array c then "array" else "object", h).
Proof. intros Hl. unfold typeOf, load, mbind, State_bind. by rewrite Hl. Qed.

Lemma typeOf_leaf (h : heap) (v : val) :
  is_ref v = false ->
  exists t, typeOf v h = Some (t, h) /\ String.eqb t "object" = false.
Proof. destruct v; try done; intros _; by eexists. Qed.

Lemma keys_ref (h : heap) (l : loc) (c : cell) :
  h !! l = Some c -> keys (Ref l) h = Some ((map_to_list (props c)).*1, h).
Proof. intros Hl. unfold keys, load, mbind, State_bind. by rewrite Hl. Qed.

Lemma keys_leaf (h : heap) (v : val) :
  is_ref v = false -> exists ks, keys v h = Some (ks, h) /\ NoDup ks.
Proof.
  destruct v as [| | | |s| |l]; try done; intros _;
    try (exists []; split; [done|constructor]).
  eexists. split; [done|]. apply NoDup_fst_map_to_list.
Qed.

#[local] Arguments getp : simpl never.
#[local] Arguments setp : simpl never.
#[local] Arguments typeOf : simpl never.
#[local] Arguments keys : simpl never.

(** In a list without duplicates, an element does not occur before
    itself. *)
Lemma NoDup_not_before {A : Type} (L pre post : list A) (x : A) :
  NoDup L -> L = pre ++ x :: post -> x ∉ pre.
Proof.
  intros Hnodup ->. apply NoDup_app in Hnodup as (_ & Hnot & _).
  intros Hpre. apply (Hnot x Hpre). left.
Qed.

(** A loop keeps an invariant that each of its steps keeps. *)
Lemma forM_invariant {A : Type} (body : A -> State unit)
    (I : list A -> heap -> Prop) (L : list A) :
  (forall pre x post h,
     L = pre ++ x :: post -> I pre h ->
     exists h', body x h = Some (tt, h') /\ I (pre ++ [x]) h') ->
  forall h, I [] h -> exists h', forM L body h = Some (tt, h') /\ I L h'.
Proof.
  intros Hstep.
  assert (forall l pre h, L = pre ++ l -> I pre h ->
            exists h', forM l body h = Some (tt, h') /\ I L h') as Hgen.
  { induction l as [|x l IH]; intros pre h HL Hpre; simpl.
    - exists h. split; [done|]. by rewrite HL, app_nil_r.
    - destruct (Hstep pre x l h HL Hpre) as (h1 & Hbody & Hnext).
      unfold mbind, State_bind. rewrite Hbody.
      apply (IH (pre ++ [x])); [|done]. by rewrite <- app_assoc. }
  intros h Hh. by apply (Hgen L []).
Qed.

(** *** Bounded depth *)

Lemma bounded_leaf (d : nat) (h : heap) (v : val) :
  is_ref v = false -> bounded d h v = true.
Proof. by destruct d, v. Qed.

Lemma bounded_ref (d : nat) (h : heap) (l : loc) :
  bounded d h (Ref l) = true ->
  exists d' c,
    d = S d' /\ h !! l = Some c /\
    forall k, bounded d' h (default Undefined (props c !! k)) = true.
Proof.
  destruct d as [|d']; simpl; [done|].
  destruct (h !! l) as [c|] eqn:Hl; [|done].
  intros Hall%bool_decide_eq_true. exists d', c. split_and!; try done.
  intros k. destruct (props c !! k) as [x|] eqn:Hk; simpl;
    [by apply (Hall k x)|by apply bounded_leaf].
Qed.

Lemma bounded_mono (d : nat) (h : heap) (v : val) :
  bounded d h v = true -> bounded (S d) h v = true.
Proof.
  revert v. induction d as [|d IH]; intros v; destruct v as [| | | | | |l]; try done.
  cbn [bounded]. destruct (h !! l) as [c|]; [|done].
  intros Hall%bool_decide_eq_true. apply bool_decide_eq_true.
  intros k x Hk. apply IH. by apply (Hall k x).
Qed.

Lemma bounded_keeps (d : nat) (h h' : heap) (v : val) :
  keeps (length h) h h' -> bounded d h v = true -> bounded d h' v = true.
Proof.
  intros [_ Hold]. revert v.
  induction d as [|d IH]; intros v; destruct v as [| | | | | |l]; try done.
  cbn [bounded]. destruct (h !! l) as [c|] eqn:Hl; [|done].
  rewrite Hold by by eapply lookup_lt_Some. rewrite Hl.
  intros Hall%bool_decide_eq_true. apply bool_decide_eq_true.
  intros k x Hk. apply IH. by apply (Hall k x).
Qed.

(** *** Trees *)

Lemma tree_weaken (h : heap) (d : nat) (F F' : loc -> Prop) (v : val) :
  tree h d F v -> (forall l, F l -> F' l) -> tree h d F' v.
Proof.
  intros Ht HF. destruct Ht as [d F v Hleaf|d F l c Fs Hl HFl Hch Hin Hdisj].
  - by apply tree_leaf.
  - apply (tree_node h d F' l c Fs); auto. intros k l' Hk.
    destruct (Hin k l' Hk). auto.
Qed.

Lemma tree_agree (h h' : heap) (d : nat) (F : loc -> Prop) (v : val) :
  tree h d F v -> (forall l, F l -> h' !! l = h !! l) -> tree h' d F v.
Proof.
  induction 1 as [d F v Hleaf|d F l c Fs Hl HFl Hch IH Hin Hdisj]; intros Hagree.
  - by apply tree_leaf.
  - apply (tree_node h' d F l c Fs); auto.
    + by rewrite Hagree.
    + intros k v Hk. apply (IH k v Hk). intros l' Hl'.
      apply Hagree. by apply (Hin k).
Qed.

Lemma tree_root (h : heap) (d : nat) (F : loc -> Prop) (l : loc) :
  tree h d F (Ref l) -> F l /\ exists c, h !! l = Some c.
Proof. inversion 1; subst; [done|]. eauto. Qed.

(** *** Cloning *)

Lemma clone_ref (fuel : nat) (l : loc) (c : cell) (h : heap) :
  h !! l = Some c ->
  clone (S fuel) (Ref l) h =
    match forM (if is_array c
                then pretty <$> seq 0 (size (props c))
                else (map_to_list (props c)).*1)
               (fun index =>
                  x ← getp (Ref l) index;
                  y ← clone fuel x;
                  setp (Ref (length h)) index y)
               (h ++ [Cell (is_array c) ∅]) with
    | Some (_, h') => Some (Ref (length h), h')
    | None => None
    end.
Proof.
  intros Hl. cbn [clone]. unfold mbind, State_bind, load, alloc. rewrite Hl.
  by destruct (forM _ _ _) as [[[] h']|].
Qed.

Lemma filling_start (h : heap) (d : nat) (array : bool) :
  filling h d array (h ++ [Cell array ∅]).
Proof.
  unfold filling. rewrite length_app. simpl. split_and!; try lia.
  - split; [rewrite length_app; lia|]. intros l Hl. by rewrite lookup_app_l.
  - exists ∅, (fun _ _ => False). split_and!; try done.
    by rewrite lookup_app_r, Nat.sub_diag.
Qed.

(** Filling in one more member, a tree allocated past the current end of
    the store. *)
Lemma filling_step (h : heap) (d : nat) (array : bool) (hi hi' : heap)
    (po : gmap string val) (k : string) (y : val) :
  filling h d array hi ->
  hi !! length h = Some (Cell array po) ->
  keeps (length hi) hi hi' ->
  tree hi' d (between (length hi) (length hi')) y ->
  filling h d array (<[length h := Cell array (<[k := y]> po)]> hi').
Proof.
  intros (Hkeep & Hout & po' & Fs & Hcell & Htrees & Hbounds & Hdisj) Hpo
         [Hlen' Hold'] Hy.
  assert (po' = po) as -> by congruence.
  destruct Hkeep as [Hlen Hold].
  unfold filling. rewrite length_insert. split_and!; try lia.
  - split; [rewrite length_insert; lia|]. intros l Hl.
    rewrite list_lookup_insert_ne by lia. rewrite Hold' by lia. by apply Hold.
  - exists (<[k := y]> po),
           (fun k' => if decide (k' = k) then between (length hi) (length hi') else Fs k').
    split_and!.
    + apply list_lookup_insert_eq. lia.
    + intros k' y' Hk'. destruct (decide (k' = k)) as [->|Hne].
      * rewrite lookup_insert_eq in Hk'. injection Hk' as <-.
        eapply tree_agree; [exact Hy|]. intros l [Hl _].
        by rewrite list_lookup_insert_ne by lia.
      * rewrite lookup_insert_ne in Hk' by done.
        eapply tree_agree; [exact (Htrees k' y' Hk')|]. intros l Hl.
        destruct (Hbounds k' l Hl). rewrite list_lookup_insert_ne by lia.
        apply Hold'. lia.
    + intros k' l. case_decide; unfold between; [lia|].
      intros Hl. destruct (Hbounds k' l Hl). lia.
    + intros k1 k2 l Hne. repeat case_decide; subst; try done; unfold between.
      * intros ? Hl. destruct (Hbounds k2 l Hl). lia.
      * intros Hl ?. destruct (Hbounds k1 l Hl). lia.
      * apply Hdisj. done.
Qed.

(** A copy that is filled is a tree on the locations allocated for it. *)
Lemma filling_done (h : heap) (d : nat) (array : bool) (h' : heap) :
  filling h d array h' ->
  keeps (length h) h h' /\
  tree h' (S d) (between (length h) (length h')) (Ref (length h)).
Proof.
  intros (Hkeep & Hout & po & Fs & Hcell & Htrees & Hbounds & Hdisj).
  split; [done|].
  apply (tree_node h' d _ (length h) (Cell array po) Fs); auto.
  - unfold between. lia.
  - intros k l Hl. destruct (Hbounds k l Hl). unfold between. lia.
Qed.

(** Cloning a value of bounded depth returns, in a store that keeps all the
    cells it found, a tree made of the cells it allocated. *)
Lemma clone_spec (fuel : nat) :
  forall d v h,
    d < fuel -> bounded d h v = true ->
    exists v' h',
      clone fuel v h = Some (v', h') /\
      keeps (length h) h h' /\
      tree h' d (between (length h) (length h')) v'.
Proof.
  induction fuel as [|fuel IH]; intros d v h Hd Hb; [lia|].
  destruct (is_ref v) eqn:Hv.
  2: { exists v, h. split; [by destruct v|].
       split; [apply keeps_refl|by apply tree_leaf]. }
  destruct v as [| | | | | |l]; try done.
  destruct (bounded_ref _ _ _ Hb) as (d' & c & -> & Hl & Hchildren).
  rewrite (clone_ref _ _ _ _ Hl).
  match goal with
  | |- context [forM ?ks ?body ?h1] =>
      destruct (fun Hstep =>
                  forM_invariant body (fun _ hi => filling h d' (is_array c) hi) ks
                    Hstep h1 (filling_start _ _ _))
        as (h' & Hloop & Hfilled)
  end.
  - intros pre x post hi _ Hfill.
    pose proof Hfill as (Hkeep & Hout & po & Fs & Hcell & _).
    assert (hi !! l = Some c) as Hli.
    { destruct Hkeep as [_ Hold]. rewrite Hold; [done|]. by eapply lookup_lt_Some. }
    unfold mbind, State_bind. rewrite (getp_ref _ _ _ _ Hli).
    destruct (IH d' (default Undefined (props c !! x)) hi)
      as (y & hi' & Hclone & Hkeep' & Hy); [lia|by eapply bounded_keeps|].
    rewrite Hclone.
    assert (hi' !! length h = Some (Cell (is_array c) po)) as Hcell'.
    { destruct Hkeep' as [_ Hold']. by rewrite Hold'. }
    rewrite (setp_ref _ _ _ _ _ Hcell'). simpl.
    eexists. split; [done|].
    by apply (filling_step h d' (is_array c) hi hi' po x y).
  - rewrite Hloop. exists (Ref (length h)), h'. split; [done|].
    by apply (filling_done h d' (is_array c)).
Qed.

(** *** Merging in place *)

(** The type tag of a tree, read in a store that agrees with the store of
    the tree on the locations of the tree. *)
Lemma tree_typeOf (h hi : heap) (d : nat) (F : loc -> Prop) (v : val) :
  tree h d F v -> (forall l, F l -> hi !! l = h !! l) ->
  exists t, typeOf v hi = Some (t, hi) /\
            (String.eqb t "object" = true -> is_ref v = true).
Proof.
  intros Ht Hagree. destruct (is_ref v) eqn:Hv.
  - destruct v as [| | | | | |l]; try done.
    destruct (tree_root _ _ _ _ Ht) as (HF & c & Hl).
    eexists. split; [|done]. apply typeOf_ref. by rewrite Hagree.
  - destruct (typeOf_leaf hi v Hv) as (t & Ht' & Hne).
    exists t. split; [done|]. by rewrite Hne.
Qed.

(** A member of a node of a tree is a tree as well. *)
Lemma member_tree (h : heap) (d : nat) (c : cell) (Fs : string -> loc -> Prop)
    (k : string) :
  (forall k v, props c !! k = Some v -> tree h d (Fs k) v) ->
  tree h d (Fs k) (default Undefined (props c !! k)).
Proof.
  intros Hch. destruct (props c !! k) as [v|] eqn:Hk; simpl; [by apply Hch|].
  by apply tree_leaf.
Qed.

(** What the loop of [merge_recursive] finds in [extend]. *)
Lemma tree_enumerate (h : heap) (d : nat) (F : loc -> Prop) (v : val) :
  tree h d F v ->
  exists ks,
    keys v h = Some (ks, h) /\ NoDup ks /\
    forall hi k,
      (forall l, F l -> hi !! l = h !! l) ->
      exists e t,
        getp v k hi = Some (e, hi) /\ typeOf e hi = Some (t, hi) /\
        (String.eqb t "object" = true ->
           exists d' Fk, d = S d' /\ tree h d' Fk e /\ forall l, Fk l -> F l).
Proof.
  intros Ht. destruct Ht as [d F v Hleaf|d F l c Fs Hl HFl Hch Hin Hdisj].
  - destruct (keys_leaf h v Hleaf) as (ks & Hks & Hnodup).
    exists ks. split_and!; try done. intros hi k _.
    destruct (getp_leaf hi v k Hleaf) as (e & He & Heleaf).
    destruct (typeOf_leaf hi e Heleaf) as (t & Ht & Hne).
    exists e, t. split_and!; try done. by rewrite Hne.
  - exists (map_to_list (props c)).*1. split_and!.
    + by apply keys_ref.
    + apply NoDup_fst_map_to_list.
    + intros hi k Hagree.
      assert (tree h d (Fs k) (default Undefined (props c !! k))) as Hmember
        by by apply member_tree.
      destruct (tree_typeOf h hi _ _ _ Hmember) as (t & Ht & Hobj).
      { intros l' Hl'. apply Hagree. by apply (Hin k). }
      exists (default Undefined (props c !! k)), t. split_and!; try done.
      * apply getp_ref. by rewrite Hagree.
      * intros _. exists d, (Fs k). split_and!; try done.
        intros l' Hl'. by apply (Hin k).
Qed.

Lemma merging_step (h : heap) (Fb : loc -> Prop) (lb : loc) (cb : cell)
    (Fs : string -> loc -> Prop) (pre : list string) (hi hi' : heap)
    (pb : gmap string val) (x : string) (r : val) :
  Fb lb ->
  (forall k l', Fs k l' -> Fb l' /\ l' <> lb) ->
  (forall k1 k2 l', k1 <> k2 -> Fs k1 l' -> Fs k2 l' -> False) ->
  merging h Fb lb cb Fs pre hi ->
  hi !! lb = Some (Cell false pb) ->
  length hi' = length hi ->
  (forall l, ~ Fs x l -> hi' !! l = hi !! l) ->
  merging h Fb lb cb Fs (pre ++ [x])
          (<[lb := Cell false (<[x := r]> pb)]> hi').
Proof.
  intros HFb Hin Hdisj (Hlen & Hframe & pb' & Hcell & Hprops & Htrees) Hpb Hlen' Hframe'.
  assert (pb' = pb) as -> by congruence.
  assert (lb < length hi) as Hlb by by eapply lookup_lt_Some.
  unfold merging. rewrite length_insert. split_and!; [lia| |].
  - intros l Hl. rewrite list_lookup_insert_ne by (by intros <-).
    rewrite Hframe'; [by apply Hframe|].
    intros Hx. apply Hl. by apply (Hin x).
  - exists (<[x := r]> pb). split_and!.
    + apply list_lookup_insert_eq. lia.
    + intros k Hk. rewrite not_elem_of_app, list_elem_of_singleton in Hk.
      destruct Hk as [Hk Hne]. rewrite lookup_insert_ne by done. by apply Hprops.
    + intros k l Hk Hl. rewrite not_elem_of_app, list_elem_of_singleton in Hk.
      destruct Hk as [Hk Hne].
      rewrite list_lookup_insert_ne by (intros <-; by destruct (Hin k lb Hl)).
      rewrite Hframe'; [by apply (Htrees k)|].
      intros Hx. by apply (Hdisj k x l).
Qed.

(** Merging a tree [extend] into a tree [base] that shares no cell with it
    returns, and writes to cells of [base] only. *)
Lemma merge_recursive_spec (fuel : nat) :
  forall d base extend db Fb Fe h,
    d < fuel -> tree h db Fb base -> tree h d Fe extend ->
    (forall l, Fb l -> Fe l -> False) ->
    exists r h',
      merge_recursive fuel base extend h = Some (r, h') /\
      length h' = length h /\
      (forall l, ~ Fb l -> h' !! l = h !! l).
Proof.
  induction fuel as [|fuel IH]; intros d base extend db Fb Fe h Hd Hb He Hsep; [lia|].
  cbn [merge_recursive]. unfold mbind, State_bind.
  destruct Hb as [db Fb base Hleaf|db Fb lb cb Fs Hlb HFb Hch Hin Hdisj].
  - destruct (typeOf_leaf h base Hleaf) as (t & -> & ->). simpl. by exists extend, h.
  - rewrite (typeOf_ref _ _ _ Hlb).
    destruct (is_array cb) eqn:Harray; simpl.
    { by exists extend, h. }
    destruct (tree_enumerate _ _ _ _ He) as (ks & -> & Hnodup & Hread).
    match goal with
    | |- context [forM ks ?body h] =>
        destruct (fun Hstep Hstart =>
                    forM_invariant body (merging h Fb lb cb Fs) ks Hstep h Hstart)
          as (h' & Hloop & Hdone)
    end.
    + intros pre x post hi HL Hinv.
      assert (x ∉ pre) as Hx by by eapply NoDup_not_before.
      pose proof Hinv as (Hlen & Hframe & pb & Hcell & Hprops & Htrees).
      cbn beta. unfold mbind, State_bind.
      rewrite (getp_ref _ _ _ _ Hcell). simpl. rewrite (Hprops x Hx).
      assert (tree h db (Fs x) (default Undefined (props cb !! x))) as Hbt
        by by apply member_tree.
      destruct (Hread hi x) as (e & te & -> & Hte & Hobj).
      { intros l Hl. apply Hframe. intros HFbl. by apply (Hsep l). }
      destruct (tree_typeOf h hi _ _ _ Hbt) as (tb & -> & Hbobj).
      { intros l Hl. by apply (Htrees x). }
      rewrite Hte.
      destruct (String.eqb tb "object" && String.eqb te "object") eqn:Hboth.
      * apply andb_true_iff in Hboth as [Htb Hte'].
        destruct (Hobj Hte') as (d' & Fe' & -> & Het & Hsub).
        destruct (IH d' (default Undefined (props cb !! x)) e db (Fs x) Fe' hi)
          as (r & hi' & -> & Hlen' & Hframe').
        { lia. }
        { eapply tree_agree; [exact Hbt|]. intros l Hl. by apply (Htrees x). }
        { eapply tree_agree; [exact Het|]. intros l Hl. apply Hframe.
          intros HFbl. apply (Hsep l HFbl). by apply Hsub. }
        { intros l Hl Hl'. apply (Hsep l); [by apply (Hin x)|by apply Hsub]. }
        assert (hi' !! lb = Some (Cell false pb)) as Hcell'.
        { rewrite Hframe'; [done|]. intros Hl. by destruct (Hin x lb Hl). }
        rewrite (setp_ref _ _ _ _ _ Hcell'). simpl.
        eexists. split; [done|].
        by apply (merging_step h Fb lb cb Fs pre hi hi' pb x r).
      * rewrite (setp_ref _ _ _ _ _ Hcell). simpl.
        eexists. split; [done|].
        by apply (merging_step h Fb lb cb Fs pre hi hi pb x e).
    + unfold merging. split_and!; try done.
      exists (props cb). split_and!; try done.
      destruct cb as [array pb]. simpl in Harray. by subst array.
    + rewrite Hloop. destruct Hdone as (Hlen & Hframe & _). by exists (Ref lb), h'.
Qed.

Lemma merge_recursive_leaf (fuel : nat) (base extend : val) (h : heap) :
  is_ref base = false ->
  merge_recursive (S fuel) base extend h = Some (extend, h).
Proof.
  intros Hleaf. cbn [merge_recursive]. unfold mbind, State_bind.
  by destruct (typeOf_leaf h base Hleaf) as (t & -> & ->).
Qed.

(** *** The merge of [mergeFieldData] *)

Lemma bind_run {A B : Type} (m : State A) (f : A -> State B) (h h1 : heap) (a : A) :
  m h = Some (a, h1) -> (m ≫= f) h = f a h1.
Proof. intros Hm. unfold mbind, State_bind. by rewrite Hm. Qed.

(** The first object of a merge in clone mode: each member is cloned into
    the result, which is being filled like a copy. *)
Lemma merge_first_item (fuel d : nat) (h hi : heap) (ls : loc) (cs : cell) :
  d < fuel ->
  h !! ls = Some cs ->
  (forall k, bounded d h (default Undefined (props cs !! k)) = true) ->
  filling h d false hi ->
  hi !! length h = Some (Cell false ∅) ->
  exists h',
    forM (map_to_list (props cs)).*1
         (fun key =>
            x ← getp (Ref ls) key;
            sitem ← clone fuel x;
            rk ← getp (Ref (length h)) key;
            r ← merge_recursive fuel rk sitem;
            setp (Ref (length h)) key r) hi = Some (tt, h') /\
    filling h d false h'.
Proof.
  intros Hd Hls Hmembers Hfill Hempty.
  match goal with
  | |- context [forM ?ks ?body hi] =>
      destruct (fun Hstep Hstart =>
                  forM_invariant body
                    (fun pre hj =>
                       filling h d false hj /\
                       forall po k, hj !! length h = Some (Cell false po) ->
                                    is_Some (po !! k) -> k ∈ pre)
                    ks Hstep hi Hstart)
        as (h' & Hloop & Hdone & _)
  end.
  - intros pre x post hj HL [Hfill' Hkeys].
    assert (x ∉ pre) as Hx
      by (eapply NoDup_not_before; [apply (NoDup_fst_map_to_list (props cs))|done]).
    pose proof Hfill' as (Hkeep & Hout & po & Fs & Hcell & _).
    assert (hj !! ls = Some cs) as Hlsj.
    { destruct Hkeep as [_ Hold]. rewrite Hold; [done|]. by eapply lookup_lt_Some. }
    rewrite (bind_run _ _ _ _ _ (getp_ref _ _ _ x Hlsj)).
    destruct (clone_spec fuel d (default Undefined (props cs !! x)) hj)
      as (y & hj' & Hclone & Hkeep' & Hy); [done|by eapply bounded_keeps|].
    rewrite (bind_run _ _ _ _ _ Hclone).
    assert (hj' !! length h = Some (Cell false po)) as Hcell'.
    { destruct Hkeep' as [_ Hold']. by rewrite Hold'. }
    rewrite (bind_run _ _ _ _ _ (getp_ref _ _ _ x Hcell')). simpl.
    assert (po !! x = None) as ->.
    { apply eq_None_not_Some. intros Hsome. by apply Hx, (Hkeys po). }
    simpl. destruct fuel as [|fuel]; [lia|].
    rewrite (bind_run _ _ _ _ _ (merge_recursive_leaf fuel Undefined y hj' eq_refl)).
    rewrite (setp_ref _ _ _ _ _ Hcell'). simpl.
    eexists. split; [done|]. split.
    + by apply (filling_step h d false hj hj' po x y).
    + intros po' k Hpo' Hk.
      rewrite list_lookup_insert_eq in Hpo' by (by eapply lookup_lt_Some).
      injection Hpo' as <-. rewrite lookup_insert in Hk.
      case_decide as Hxk; [subst; set_solver|].
      apply elem_of_app. left. by apply (Hkeys po).
  - split; [done|]. intros po k Hpo Hk. rewrite Hempty in Hpo.
    injection Hpo as <-. rewrite lookup_empty in Hk. by destruct Hk.
  - by exists h'.
Qed.

(** The second object: each member is cloned, then merged into whatever
    the first object left under the same key, a tree that no earlier step
    has touched. *)
Lemma merge_second_item (fuel d d2 : nat) (h h2 : heap) (lo : loc) (co : cell) :
  d < fuel ->
  h !! lo = Some co ->
  (forall k, bounded d h (default Undefined (props co !! k)) = true) ->
  filling h d2 false h2 ->
  exists h',
    forM (map_to_list (props co)).*1
         (fun key =>
            x ← getp (Ref lo) key;
            sitem ← clone fuel x;
            rk ← getp (Ref (length h)) key;
            r ← merge_recursive fuel rk sitem;
            setp (Ref (length h)) key r) h2 = Some (tt, h') /\
    keeps (length h) h h' /\
    exists pr, h' !! length h = Some (Cell false pr).
Proof.
  intros Hd Hlo Hmembers (Hkeep2 & Hout2 & pr & Fs & Hcell2 & Htrees2 & Hbounds2 & Hdisj2).
  match goal with
  | |- context [forM ?ks ?body h2] =>
      destruct (fun Hstep Hstart =>
                  forM_invariant body
                    (fun pre hi =>
                       keeps (length h) h hi /\ length h2 <= length hi /\
                       exists pri,
                         hi !! length h = Some (Cell false pri) /\
                         (forall k, k ∉ pre -> pri !! k = pr !! k) /\
                         (forall k l, k ∉ pre -> Fs k l -> hi !! l = h2 !! l))
                    ks Hstep h2 Hstart)
        as (h' & Hloop & Hkeep' & _ & pr' & Hcell' & _)
  end.
  - intros pre x post hi HL (Hkeep & Hlen & pri & Hcell & Hprops & Htrees).
    assert (x ∉ pre) as Hx
      by (eapply NoDup_not_before; [apply (NoDup_fst_map_to_list (props co))|done]).
    assert (hi !! lo = Some co) as Hloi.
    { destruct Hkeep as [_ Hold]. rewrite Hold; [done|]. by eapply lookup_lt_Some. }
    rewrite (bind_run _ _ _ _ _ (getp_ref _ _ _ x Hloi)).
    destruct (clone_spec fuel d (default Undefined (props co !! x)) hi)
      as (y & hi1 & Hclone & [Hlen1 Hold1] & Hy); [done|by eapply bounded_keeps|].
    rewrite (bind_run _ _ _ _ _ Hclone).
    assert (hi1 !! length h = Some (Cell false pri)) as Hcell1.
    { rewrite Hold1; [done|]. lia. }
    rewrite (bind_run _ _ _ _ _ (getp_ref _ _ _ x Hcell1)). simpl.
    rewrite (Hprops x Hx).
    destruct (merge_recursive_spec fuel d (default Undefined (pr !! x)) y d2
                (Fs x) (between (length hi) (length hi1)) hi1)
      as (r & hi2 & Hmerge & Hlen2 & Hframe2); [done| |done| |].
    { eapply tree_agree; [by apply (member_tree h2 d2 (Cell false pr) Fs x)|].
      intros l Hl. destruct (Hbounds2 x l Hl).
      rewrite Hold1 by lia. by apply (Htrees x). }
    { intros l Hl [Hl' _]. destruct (Hbounds2 x l Hl). lia. }
    rewrite (bind_run _ _ _ _ _ Hmerge).
    assert (hi2 !! length h = Some (Cell false pri)) as Hcell2'.
    { rewrite Hframe2; [done|]. intros Hl. destruct (Hbounds2 x _ Hl). lia. }
    rewrite (setp_ref _ _ _ _ _ Hcell2'). simpl.
    eexists. split; [done|].
    destruct Hkeep as [Hlenh Hold].
    rewrite length_insert. split_and!; try lia.
    + split; [rewrite length_insert; lia|]. intros l Hl.
      rewrite list_lookup_insert_ne by lia.
      rewrite Hframe2 by (intros HF; destruct (Hbounds2 x l HF); lia).
      rewrite Hold1 by lia. by apply Hold.
    + exists (<[x := r]> pri). split_and!.
      * apply list_lookup_insert_eq. lia.
      * intros k Hk. rewrite not_elem_of_app, list_elem_of_singleton in Hk.
        destruct Hk as [Hk Hne]. rewrite lookup_insert_ne by done. by apply Hprops.
      * intros k l Hk Hl. rewrite not_elem_of_app, list_elem_of_singleton in Hk.
        destruct Hk as [Hk Hne]. destruct (Hbounds2 k l Hl).
        rewrite list_lookup_insert_ne by lia.
        rewrite Hframe2 by (intros HF; by apply (Hdisj2 k x l)).
        rewrite Hold1 by lia. by apply (Htrees k).
  - split_and!; [done|lia|]. exists pr. by split_and!.
  - exists h'. split_and!; try done. by exists pr'.
Qed.

(** [merge.recursive(true, structure, overlay)] for an object [overlay]:
    the result is a new object, and the store keeps every cell it had. *)
Lemma recursive_spec (fuel d : nat) (h : heap) (structure : val) (lo : loc) (co : cell) :
  d < fuel ->
  bounded d h structure = true ->
  h !! lo = Some co -> is_array co = false ->
  (forall k, bounded d h (default Undefined (props co !! k)) = true) ->
  exists h',
    recursive fuel (Bool true) [structure; Ref lo] h = Some (Ref (length h), h') /\
    keeps (length h) h h' /\
    exists pr, h' !! length h = Some (Cell false pr).
Proof.
  intros Hd Hstructure Hlo Hobject Hmembers.
  unfold recursive, merge. cbn [head default].
  rewrite (bind_run _ _ h h "boolean") by done. cbn [orb].
  unfold alloc at 1.
  rewrite (bind_run _ _ h (h ++ [Cell false ∅]) (Ref (length h))) by reflexivity.
  set (h1 := h ++ [Cell false ∅]).
  match goal with
  | |- context [forM [Bool true; structure; Ref lo] ?body] => set (item := body)
  end.
  assert (h1 !! length h = Some (Cell false ∅)) as Hempty.
  { unfold h1. by rewrite lookup_app_r, Nat.sub_diag. }
  (* the structure *)
  assert (exists d2 h2, item structure h1 = Some (tt, h2) /\ filling h d2 false h2)
    as (d2 & h2 & Hitem2 & Hfill2).
  { unfold item. destruct (is_ref structure) eqn:Hs.
    - destruct structure as [| | | | | |ls]; try done.
      destruct (bounded_ref _ _ _ Hstructure) as (d' & cs & -> & Hls & Hch).
      assert (h1 !! ls = Some cs) as Hls1.
      { unfold h1. rewrite lookup_app_l; [done|]. by eapply lookup_lt_Some. }
      rewrite (bind_run _ _ _ _ _ (typeOf_ref _ _ _ Hls1)).
      destruct (is_array cs); simpl; [exists d', h1; split; [done|apply filling_start]|].
      rewrite (bind_run _ _ _ _ _ (keys_ref _ _ _ Hls1)).
      destruct (merge_first_item fuel d' h h1 ls cs) as (h2 & Hloop & Hfill2);
        try done; [lia|apply filling_start|].
      by exists d', h2.
    - destruct (typeOf_leaf h1 structure Hs) as (t & Ht & Hne).
      rewrite (bind_run _ _ _ _ _ Ht), Hne. simpl.
      exists d, h1. split; [done|apply filling_start]. }
  (* the overlay *)
  assert (exists h', item (Ref lo) h2 = Some (tt, h') /\
                     keeps (length h) h h' /\
                     exists pr, h' !! length h = Some (Cell false pr))
    as (h' & Hitem3 & Hkeep & Hcell).
  { unfold item. pose proof Hfill2 as ([_ Hold2] & _).
    assert (h2 !! lo = Some co) as Hlo2.
    { rewrite Hold2; [done|]. by eapply lookup_lt_Some. }
    rewrite (bind_run _ _ _ _ _ (typeOf_ref _ _ _ Hlo2)). rewrite Hobject. simpl.
    rewrite (bind_run _ _ _ _ _ (keys_ref _ _ _ Hlo2)).
    by apply (merge_second_item fuel d d2). }
  exists h'. split; [|done].
  rewrite (bind_run _ _ h1 h' tt); [done|].
  cbn [forM].
  rewrite (bind_run _ _ h1 h1 tt) by reflexivity.
  rewrite (bind_run _ _ _ _ _ Hitem2).
  by rewrite (bind_run _ _ _ _ _ Hitem3).
Qed.

Lemma getp_bounded (d : nat) (h : heap) (v : val) (k : string) :
  bounded d h v = true ->
  exists x, getp v k h = Some (x, h) /\ bounded d h x = true.
Proof.
  intros Hv. destruct (is_ref v) eqn:Href.
  - destruct v as [| | | | | |l]; try done.
    destruct (bounded_ref _ _ _ Hv) as (d' & c & -> & Hl & Hch).
    eexists. split; [by apply getp_ref|]. by apply bounded_mono.
  - destruct (getp_leaf h v k Href) as (x & Hx & Hleaf).
    exists x. split; [done|]. by apply bounded_leaf.
Qed.

(** C9.  On a store whose values have bounded depth, and given fuel beyond
    that depth, [mergeFieldData] returns a reference to an object at a
    location that was not allocated before the call, and every cell that
    was allocated before the call, its two arguments and all they reach
    included, is unchanged afterwards.  When [state] is [undefined] or
    [null] the call throws and the store is unchanged altogether. *)
Theorem mergeFieldData_fresh_and_frame (fuel d : nat) (h : heap) (structure state : val)
    (Hfuel : d < fuel)
    (Hstructure : bounded d h structure = true)
    (Hstate : bounded d h state = true) :
  if nullish state then mergeFieldData fuel structure state h = Some (TypeError, h)
  else
    exists l h',
      mergeFieldData fuel structure state h = Some (Ok (Ref l), h') /\
      length h <= l /\
      (exists pr, h' !! l = Some (Cell false pr)) /\
      (forall l0, l0 < length h -> h' !! l0 = h !! l0).
Proof.
  unfold mergeFieldData. destruct (nullish state) eqn:Hnull; [done|].
  destruct (getp_bounded d h state "data" Hstate) as (data & Hdata & Hbdata).
  destruct (getp_bounded d h state "messages" Hstate) as (messages & Hmessages & Hbmessages).
  destruct (getp_bounded d h state "valid" Hstate) as (valid & Hvalid & Hbvalid).
  destruct (getp_bounded d h state "value" Hstate) as (value & Hvalue & Hbvalue).
  rewrite (bind_run _ _ _ _ _ Hdata), (bind_run _ _ _ _ _ Hmessages),
    (bind_run _ _ _ _ _ Hvalid), (bind_run _ _ _ _ _ Hvalue).
  set (co := Cell false {[ "data" := data; "messages" := messages;
                           "valid" := valid; "value" := value ]}).
  rewrite (bind_run _ _ h (h ++ [co]) (length h)) by reflexivity.
  assert (keeps (length h) h (h ++ [co])) as Hkeep0.
  { split; [rewrite length_app; lia|]. intros l Hl. by rewrite lookup_app_l. }
  destruct (recursive_spec fuel d (h ++ [co]) structure (length h) co)
    as (h' & Hmerge & [Hlen Hold] & pr & Hcell); try done.
  - by eapply bounded_keeps.
  - by rewrite lookup_app_r, Nat.sub_diag.
  - intros k. eapply bounded_keeps; [exact Hkeep0|].
    unfold co. simpl. rewrite !lookup_insert.
    repeat case_decide; simpl; try done.
    rewrite lookup_singleton. case_decide; simpl; [done|by apply bounded_leaf].
  - rewrite (bind_run _ _ _ _ _ Hmerge). simpl.
    rewrite length_app in *. simpl in *.
    exists (length h + 1), h'. split_and!; [done|lia|by exists pr|].
    intros l0 Hl0. rewrite Hold by lia. by rewrite lookup_app_l.
Qed.

Lemma mergeFieldData_fresh_and_frame_witness :
  exists l h',
    mergeFieldData 3 (Ref 0) (Ref 2) sample = Some (Ok (Ref l), h') /\
    5 <= l /\ h' !! 0 = sample !! 0 /\ h' !! 2 = sample !! 2.
Proof.
  destruct (mergeFieldData_fresh_and_frame 3 2 sample (Ref 0) (Ref 2))
    as (l & h' & Hrun & Hfresh & _ & Hframe).
  - lia.
  - by vm_compute.
  - by vm_compute.
  - exists l, h'. split; [exact Hrun|]. split; [exact Hfresh|].
    split; apply Hframe; simpl; lia.
Defined.

(** The run on the sample store: the merged record is at location 6, after
    the object literal at 5; its [data] is a new object that holds the
    members of both [data] objects, which are themselves as before. *)
Example mergeFieldData_sample :
  exists h',
    mergeFieldData 3 (Ref 0) (Ref 2) sample = Some (Ok (Ref 6), h') /\
    take 5 h' = sample /\
    h' !! 6 = Some (Cell false {[ "id" := Num 1; "name" := Str "Title";
                                  "data" := Ref 7; "messages" := Ref 8;
                                  "valid" := Undefined; "value" := Str "Hello" ]}) /\
    h' !! 7 = Some (Cell false {[ "placeholder" := Str "..."; "dirty" := Bool true ]}).
Proof. eexists. split; [by vm_compute|]. by vm_compute. Qed.

End StoreFacts.

(** On the sample, the record built in the store denotes the value that
    [mergeFieldData] computes on the values that its arguments denote. *)
Example mergeFieldData_sample_agrees :
  match Store.mergeFieldData 3 (Store.Ref 0) (Store.Ref 2) Store.sample,
        Store.reify 3 Store.sample (Store.Ref 0),
        Store.reify 3 Store.sample (Store.Ref 2) with
  | Some (Ok r, h'), Some structure, Some state =>
      match Store.reify 3 h' r with
      | Some merged => mergeFieldData structure state = Ok merged
      | None => False
      end
  | _, _, _ => False
  end.
Proof. vm_compute. reflexivity. Qed.

(** ** Further properties of the component *)

(** *** Requests over the life of an instance *)















(** X1.  The request that [fetch] issues on an instance whose flag is clear
    goes to the schema URL of the props with the credentials of the same
    origin, and its header lists [schema] and [state], each for an argument
    that is [true] or left out; any other argument, truthy ones included,
    leaves its part out.  [componentDidMount] asks for both. *)
Theorem fetch_request_header (props : Props.t) (schema state : value) (w : world)
    (Hidle : isFetching w = false) :
  requests (fetch props schema state w).2 =
    requests w ++
      [{| req_url := Props.schemaUrl props;
          req_header := match requested schema, requested state with
                        | true, true => "schema,state"
                        | true, false => "schema"
                        | false, true => "state"
                        | false, false => ""
                        end;
          req_credentials := "same-origin" |}] /\
  requests (componentDidMount props w).2 =
    requests w ++
      [{| req_url := Props.schemaUrl props; req_header := "schema,state";
          req_credentials := "same-origin" |}].
Proof.
  unfold componentDidMount, fetch, mbind, M_bind. rewrite Hidle. split; [|done].
  destruct schema as [| |[]| | | | |], state as [| |[]| | | | |]; reflexivity.
Qed.

Lemma fetch_request_header_witness :
  req_header <$> requests (fetch Sample.propsEmpty (VBool true) (VNum 1) constructed).2
    = ["schema"].
Proof.
  rewrite (proj1 (fetch_request_header Sample.propsEmpty (VBool true) (VNum 1)
                    constructed eq_refl)).
  reflexivity.
Defined.



(** *** The response to a request *)

(** No index, written in decimal, reads ["length"]. *)
Lemma pretty_N_go_ne_length (x : N) (s s' : string) :
  s <> "l" +:+ s' -> pretty.pretty_N_go x s <> "l" +:+ s'.
Proof.
  revert s. induction (N.lt_wf_0 x) as [x _ IH]; intros s Hs.
  assert (x = 0 \/ 0 < x)%N as [->|Hx] by lia.
  - by rewrite pretty.pretty_N_go_0.
  - rewrite pretty.pretty_N_go_step by done. apply IH.
    { by apply N.div_lt. }
    unfold pretty.pretty_N_char. by repeat case_match.
Qed.

Lemma pretty_nat_ne_length (i : nat) : pretty i <> "length".
Proof.
  unfold pretty, pretty_nat, pretty, pretty_N. case_decide; [done|].
  by apply (pretty_N_go_ne_length _ "" "ength").
Qed.

Lemma indexed_length {A : Type} (f : A -> value) (l : list A) :
  indexed f l !! "length" = None.
Proof.
  unfold indexed. apply not_elem_of_list_to_map_1. intros Hin.
  apply list_elem_of_fmap in Hin as ([k y] & Hk & Hin). simpl in Hk. subst k.
  apply elem_of_lookup_imap_1 in Hin as (i & x & Heq & _).
  injection Heq as Heq _. by apply (pretty_nat_ne_length i).
Qed.

(** [arr.length]. *)
Lemma prop_length (vs : list value) :
  prop (VArr vs) "length" = VNum (Z.of_nat (length vs)).
Proof. unfold prop, own_props. by rewrite indexed_length. Qed.

(** [arr[i]] past the end of [arr]. *)
Lemma get_index_beyond (vs : list value) (i : nat) :
  length vs <= i -> get_index (VArr vs) i = Ok VUndefined.
Proof.
  intros Hi. unfold get_index, get, prop, own_props. simpl.
  rewrite indexed_lookup, lookup_ge_None_2 by done. simpl.
  destruct (String.eqb (pretty i) "length") eqn:Heq; [|done].
  apply String.eqb_eq in Heq. by destruct (pretty_nat_ne_length i).
Qed.

(** X3.  A response that carries an id and a schema with its attributes and
    its list of actions binds the submit endpoint of the instance to the
    [action] URL and the [method] of the attributes, with default data that
    hold the security token of the config and, when the list of actions is
    not empty, the name of the first action set to [1]; an empty list adds
    nothing.  The schema record is then published, before the state
    record. *)
Theorem fetch_then_binds_endpoint (props : Props.t) (json : value) (w : world)
    (body : gmap string value) (acts : list value)
    (Hjson : nullish json = false)
    (Hid : is_undefined (prop json "id") = false)
    (Hconfig : nullish (Props.config props) = false)
    (Hschema : prop json "schema" = VObj body)
    (Hactions : body !! "actions" = Some (VArr acts))
    (Hfirst : forall a, head acts = Some a -> nullish a = false)
    (Hattributes : nullish (default VUndefined (body !! "attributes")) = false) :
  let attributes := default VUndefined (body !! "attributes") in
  let token : gmap string value :=
    {[ "SecurityID" := prop (Props.config props) "SecurityID" ]} in
  let api := {|
    url := prop attributes "action";
    method := prop attributes "method";
    defaultData := match acts with
                   | [] => token
                   | a :: _ => <[to_key (prop a "name") := VNum 1]> token
                   end |} in
  let formSchema := VObj {[ "id" := prop json "id"; "schema" := VObj body ]} in
  let formState := VObj (assign [prop json "state"]) in
  let w' := (fetch_then props json w).2 in
  (fetch_then props json w).1 = Ok tt /\
  submitApi w' = Some api /\
  dispatched w' =
    dispatched w ++ SetSchema formSchema ::
      (if is_undefined (prop formState "id") then [] else [AddForm formState]).
Proof.
  intros attributes token api formSchema formState. unfold fetch_then.
  rewrite !(get_ok json) by done. rewrite Hschema.
  unfold mbind, M_bind, lift, mret, M_ret. simpl.
  rewrite !typeof_undefined. rewrite lookup_insert_eq. simpl. rewrite Hid. simpl.
  rewrite get_ok by done. simpl. rewrite Hactions. simpl.
  fold attributes.
  rewrite indexed_length. fold formState.
  destruct acts as [|a rest].
  - simpl. rewrite !(get_ok attributes) by done. simpl.
    destruct (is_undefined (prop formState "id")) eqn:Hst;
      simpl in Hst |- *; rewrite Hst; simpl; by rewrite <- ?app_assoc.
  - assert (gt_zero (VNum (Z.of_nat (length (a :: rest)))) = true) as ->.
    { unfold gt_zero, to_number. apply bool_decide_eq_true_2. simpl length. lia. }
    rewrite (indexed_lookup id (a :: rest) 0). simpl.
    rewrite (get_ok a) by by apply Hfirst. simpl.
    rewrite !(get_ok attributes) by done. simpl.
    destruct (is_undefined (prop formState "id")) eqn:Hst;
      simpl in Hst |- *; rewrite Hst; simpl; by rewrite <- ?app_assoc.
Qed.

Lemma fetch_then_binds_endpoint_witness :
  submitApi (fetch_then Sample.props Sample.json constructed).2 =
    Some {| url := VStr "/admin/save"; method := VStr "post";
            defaultData := {[ "SecurityID" := VStr "token";
                              "action_save" := VNum 1 ]} |}.
Proof.
  destruct (fetch_then_binds_endpoint Sample.props Sample.json constructed
              {[ "attributes" := VObj {[ "action" := VStr "/admin/save";
                                         "method" := VStr "post";
                                         "class" := VStr "cms-edit-form";
                                         "enctype" := VStr "multipart/form-data" ]};
                 "actions" := VArr [Sample.saveAction; Sample.cancelAction];
                 "fields" := VArr [Sample.titleField; Sample.contentField];
                 "data" := VArr [] ]}
              [Sample.saveAction; Sample.cancelAction]
              eq_refl eq_refl eq_refl eq_refl eq_refl)
    as (_ & Hapi & _).
  - intros a [= <-]. reflexivity.
  - reflexivity.
  - rewrite Hapi. by vm_compute.
Defined.

(** X4.  When the callback of a response throws (as it does for a response
    with an id whose schema lacks the attributes), it has published nothing
    and has left the instance as it was: every read that can throw comes
    before the set-schema action, so that the state record of such a
    response is not published either. *)
Theorem fetch_then_throws_unchanged (props : Props.t) (json : value) (w : world)
    (Hthrows : (fetch_then props json w).1 = TypeError) :
  (fetch_then props json w).2 = w.
Proof.
  revert Hthrows. unfold fetch_then.
  unfold mbind, M_bind, lift, mret, M_ret.
  repeat match goal with
         | |- context [get ?v ?k] => destruct (get v k); simpl
         | |- context [get_index ?v ?k] => destruct (get_index v k); simpl
         | |- context [gt_zero ?v] => destruct (gt_zero v); simpl
         | |- context [if negb ?b then _ else _] => destruct b; simpl
         end; try done.
Qed.

Lemma fetch_then_throws_unchanged_witness :
  let json := VObj {[ "id" := VStr "EditForm";
                      "schema" := VObj {[ "actions" := VArr [] ]};
                      "state" := Sample.formState ]} in
  dispatched (fetch_then Sample.props json constructed).2 = [].
Proof.
  intros json.
  rewrite (fetch_then_throws_unchanged Sample.props json constructed).
  - reflexivity.
  - by vm_compute.
Defined.

(** *** Events *)

Lemma fieldValues_step_unmatched (schemaFields : list value) (acc curr : value) :
  Forall (fun schemaField => nullish schemaField = false) schemaFields ->
  submitName schemaFields curr = None ->
  fieldValues_step (VArr schemaFields) acc curr = TypeError.
Proof.
  intros Hsfs Hname. unfold fieldValues_step.
  destruct (nullish curr) eqn:Hcurr.
  - destruct Hsfs as [|schemaField rest Hsf _]; simpl; [done|].
    rewrite (get_ok schemaField) by done. by rewrite !(get_nullish curr) by done.
  - rewrite find_schemaField_find by done. unfold submitName in Hname.
    by destruct (List.find _ schemaFields).
Qed.

Lemma reduce_unmatched (schemaFields fields : list value) :
  Forall (fun schemaField => nullish schemaField = false) schemaFields ->
  Exists (fun curr => submitName schemaFields curr = None) fields ->
  forall acc, reduce (fieldValues_step (VArr schemaFields)) fields acc = TypeError.
Proof.
  intros Hsfs. induction 1 as [curr rest Hname|curr rest _ IH]; intros acc; simpl.
  - by rewrite fieldValues_step_unmatched.
  - destruct (fieldValues_step _ acc curr) as [acc'|]; simpl; [apply IH|done].
Qed.

(** X5.  When some field of the form state has an id that no field of the
    schema has (ids are compared with [===], so that the number [1] and the
    string ["1"] differ), [handleSubmit] throws, whatever the other fields
    are, and does nothing else: the event is not suppressed, nothing is
    dispatched, and a submit handler of the props is not called. *)
Theorem handleSubmit_unmatched_id_throws (props : Props.t) (schema formId : value)
    (schemaFields fields : list value) (ev : event) (w : world)
    (Hschema : get (getFormSchema props) "schema" = Ok schema)
    (HschemaFields : get schema "fields" = Ok (VArr schemaFields))
    (HformId : getFormId props = Ok formId)
    (Hfields : get (formOf props formId) "fields" = Ok (VArr fields))
    (Hobjects : Forall (fun schemaField => nullish schemaField = false) schemaFields)
    (Hunmatched : Exists (fun curr => submitName schemaFields curr = None) fields) :
  handleSubmit props ev w = (TypeError, w).
Proof.
  unfold handleSubmit, fieldValues.
  rewrite Hschema. simpl. rewrite HschemaFields. simpl.
  rewrite HformId. simpl. rewrite Hfields. simpl.
  by rewrite reduce_unmatched.
Qed.

Lemma handleSubmit_unmatched_id_throws_witness :
  let props := {|
    Props.config := VNull; Props.createFn := None;
    Props.form := {[ "EditForm" :=
      VObj {[ "fields" := VArr [Sample.titleState;
                                VObj {[ "id" := VStr "2"; "value" := VStr "?" ]}] ]} ]};
    Props.handleSubmit := Some (fun _ _ submit => submit);
    Props.schemas := {[ "admin/schema" := Sample.formSchema ]};
    Props.schemaUrl := "admin/schema" |} in
  handleSubmit props 0 constructed = (TypeError, constructed).
Proof.
  intros props.
  apply (handleSubmit_unmatched_id_throws props Sample.schemaBody (VStr "EditForm")
           [Sample.titleField; Sample.contentField]
           [Sample.titleState; VObj {[ "id" := VStr "2"; "value" := VStr "?" ]}]);
    try reflexivity.
  - repeat constructor.
  - apply Exists_cons_tl, Exists_cons_hd. reflexivity.
Defined.



(** *** Rendering *)

(** [arr.map(f)] throws as soon as [f] throws on one element. *)
Lemma map_outcome_error {A B : Type} (f : nat -> A -> outcome B) (l : list A) :
  forall i j x,
    l !! j = Some x -> f (i + j) x = TypeError -> map_outcome f i l = TypeError.
Proof.
  induction l as [|a l IH]; intros i j x Hj Hf; simpl; [done|].
  destruct j as [|j]; simpl in Hj.
  - injection Hj as ->. rewrite Nat.add_0_r in Hf. by rewrite Hf.
  - destruct (f i a) as [y|]; simpl; [|done].
    rewrite (IH (S i) j x); [done|done|].
    by replace (S i + j) with (i + S j) by lia.
Qed.

(** X7.  Whenever [render] returns an element, it is a [Form] that receives
    the form id, the actions and the data of the schema, the four bound
    methods, and the attributes of the schema renamed for React: [class] and
    [enctype] are set to [null], their values are passed as [className] and
    [encType], and every other attribute is passed as it is. *)
Theorem render_form_props (props : Props.t) (type : component)
    (config : gmap string value)
    (Hrender : render props = Ok (NElement type config)) :
  let formSchema := getFormSchema props in
  let schema := prop formSchema "schema" in
  let attributes := prop schema "attributes" in
  type = Form /\
  config !! "formId" = Some (prop formSchema "id") /\
  config !! "actions" = Some (prop schema "actions") /\
  config !! "data" = Some (prop schema "data") /\
  config !! "componentWillUnmount" = Some (VFun "removeForm") /\
  config !! "handleSubmit" = Some (VFun "handleSubmit") /\
  config !! "mapActionsToComponents" = Some (VFun "mapActionsToComponents") /\
  config !! "mapFieldsToComponents" = Some (VFun "mapFieldsToComponents") /\
  exists a,
    config !! "attributes" = Some (VObj a) /\
    a !! "class" = Some VNull /\
    a !! "className" = Some (prop attributes "class") /\
    a !! "enctype" = Some VNull /\
    a !! "encType" = Some (prop attributes "enctype") /\
    forall k,
      k ∉ ["class"; "className"; "enctype"; "encType"] ->
      a !! k = own_props attributes !! k.
Proof.
  intros formSchema schema attributes. revert Hrender.
  unfold render. rewrite getFormId_ok. fold formSchema.
  destruct (truthy formSchema) eqn:Hschema; simpl; [|done].
  destruct (truthy (prop formSchema "id")) eqn:Hid; simpl; [|done].
  rewrite (get_ok formSchema) by by apply truthy_not_nullish.
  simpl. fold schema.
  destruct (nullish schema) eqn:Hnull;
    [rewrite (get_nullish schema) by done; simpl; done|].
  rewrite (get_ok schema) by done. simpl. fold attributes.
  destruct (nullish attributes) eqn:Hattr;
    [rewrite !(get_nullish attributes) by done; simpl; done|].
  rewrite !(get_ok attributes) by done. simpl.
  match goal with
  | |- context [mbind _ ?m] => destruct m as [fieldData|]; simpl; [|done]
  end.
  intros [= <- <-].
  split_and!; try by simplify_map_eq.
  eexists. split; [by simplify_map_eq|].
  rewrite !assign_two. simpl.
  split_and!; try by simplify_map_eq.
  intros k Hk. rewrite !elem_of_cons, elem_of_nil in Hk.
  rewrite assign_two. simpl.
  rewrite !lookup_insert_ne by naive_solver.
  rewrite lookup_singleton_ne by naive_solver.
  by destruct (own_props attributes !! k).
Qed.

Lemma render_form_props_witness :
  exists config a,
    render Sample.props = Ok (NElement Form config) /\
    config !! "attributes" = Some (VObj a) /\
    a !! "className" = Some (VStr "cms-edit-form") /\
    a !! "action" = Some (VStr "/admin/save").
Proof.
  eexists.
  destruct (render_form_props Sample.props Form _ eq_refl)
    as (_ & _ & _ & _ & _ & _ & _ & _ & a & Ha & _ & Hclass & _ & _ & Hother).
  exists a. split; [reflexivity|]. split; [exact Ha|]. split.
  - exact Hclass.
  - rewrite Hother; [reflexivity|].
    rewrite !elem_of_cons, elem_of_nil. intros [H|[H|[H|[H|[]]]]]; discriminate.
Defined.

(** [render] for a schema record that has a form id and a schema with
    attributes: the form receives the field data, merged when the state of
    the form has [fields]. *)
Lemma render_fields (props : Props.t) (formSchema : value)
    (body : gmap string value) :
  Props.schemas props !! Props.schemaUrl props = Some formSchema ->
  truthy (prop formSchema "id") = true ->
  prop formSchema "schema" = VObj body ->
  nullish (default VUndefined (body !! "attributes")) = false ->
  let formState := formOf props (prop formSchema "id") in
  let fields := default VUndefined (body !! "fields") in
  exists formProps : value -> gmap string value,
    (forall fieldData, formProps fieldData !! "fields" = Some fieldData) /\
    render props =
      fieldData ←
        (if truthy formState && truthy (prop formState "fields") then
           match fields with
           | VArr fs =>
               merged ← map_outcome (fun i f =>
                           s ← get_index (prop formState "fields") i;
                           mergeFieldData f s) 0 fs;
               Ok (VArr merged)
           | _ => TypeError
           end
         else Ok fields);
      Ok (NElement Form (formProps fieldData)).
Proof.
  intros Hschema Hid Hbody Hattributes formState fields.
  assert (truthy formSchema = true) as Htruthy by by eapply truthy_prop.
  unfold render. rewrite getFormId_ok. unfold getFormSchema.
  rewrite Hschema. simpl. rewrite Htruthy, Hid. simpl.
  rewrite get_ok by by apply truthy_not_nullish. rewrite Hbody. simpl.
  rewrite !get_ok by done. simpl. fold formState. fold fields.
  eexists (fun fieldData => _). split; [|reflexivity].
  intros fieldData. by simplify_map_eq.
Qed.

(** X8.  While the store holds the schema of the form and no state for it
    (no entry under the form id, or an entry without [fields]), [render]
    passes the [fields] of the schema on as they are, whatever they are,
    and does not throw. *)
Theorem render_structural_fields (props : Props.t) (formSchema : value)
    (body : gmap string value)
    (Hschema : Props.schemas props !! Props.schemaUrl props = Some formSchema)
    (HformId : truthy (prop formSchema "id") = true)
    (Hbody : prop formSchema "schema" = VObj body)
    (Hattributes : nullish (default VUndefined (body !! "attributes")) = false)
    (Hnostate : truthy (formOf props (prop formSchema "id")) = false \/
                truthy (prop (formOf props (prop formSchema "id")) "fields") = false) :
  exists config,
    render props = Ok (NElement Form config) /\
    config !! "fields" = Some (default VUndefined (body !! "fields")).
Proof.
  destruct (render_fields props formSchema body) as (formProps & Hfields & ->);
    try done.
  assert (truthy (formOf props (prop formSchema "id")) &&
          truthy (prop (formOf props (prop formSchema "id")) "fields") = false) as ->.
  { destruct Hnostate as [-> | ->]; [done|apply andb_false_r]. }
  simpl. eexists. split; [done|]. apply Hfields.
Qed.

Lemma render_structural_fields_witness :
  exists config,
    render {| Props.config := VNull; Props.createFn := None; Props.form := ∅;
              Props.handleSubmit := None;
              Props.schemas := {[ "admin/schema" := Sample.formSchema ]};
              Props.schemaUrl := "admin/schema" |}
      = Ok (NElement Form config) /\
    config !! "fields" = Some (VArr [Sample.titleField; Sample.contentField]).
Proof.
  destruct (render_structural_fields
              {| Props.config := VNull; Props.createFn := None; Props.form := ∅;
                 Props.handleSubmit := None;
                 Props.schemas := {[ "admin/schema" := Sample.formSchema ]};
                 Props.schemaUrl := "admin/schema" |}
              Sample.formSchema
              {[ "attributes" := VObj {[ "action" := VStr "/admin/save";
                                         "method" := VStr "post";
                                         "class" := VStr "cms-edit-form";
                                         "enctype" := VStr "multipart/form-data" ]};
                 "actions" := VArr [Sample.saveAction; Sample.cancelAction];
                 "fields" := VArr [Sample.titleField; Sample.contentField];
                 "data" := VArr [] ]})
    as (config & Hrender & Hfields);
    [reflexivity|reflexivity|reflexivity|reflexivity|left; reflexivity|].
  exists config. split; [exact Hrender|]. rewrite Hfields. reflexivity.
Defined.

(** X9.  When the form state has fewer field entries than the schema has
    fields, [render] throws: past the end of the state entries the merge
    reads [data] on [undefined]. *)
Theorem render_throws_on_short_state (props : Props.t) (formSchema formState : value)
    (body : gmap string value) (fs ss : list value)
    (Hschema : Props.schemas props !! Props.schemaUrl props = Some formSchema)
    (HformId : truthy (prop formSchema "id") = true)
    (Hbody : prop formSchema "schema" = VObj body)
    (Hattributes : nullish (default VUndefined (body !! "attributes")) = false)
    (Hfs : body !! "fields" = Some (VArr fs))
    (Hstate : Props.form props !! to_key (prop formSchema "id") = Some formState)
    (Hss : prop formState "fields" = VArr ss)
    (Hshort : length ss < length fs) :
  render props = TypeError.
Proof.
  assert (truthy formState = true) as HtruthyState.
  { eapply truthy_prop. by rewrite Hss. }
  destruct (render_fields props formSchema body) as (formProps & _ & ->);
    try done.
  unfold formOf. rewrite Hstate. simpl. rewrite HtruthyState, Hss, Hfs. simpl.
  destruct (lookup_lt_is_Some_2 fs (length ss) Hshort) as [f Hf].
  rewrite (map_outcome_error _ fs 0 (length ss) f Hf); [done|].
  change ((s ← get_index (VArr ss) (length ss); mergeFieldData f s) = TypeError).
  by rewrite get_index_beyond.
Qed.

Lemma render_throws_on_short_state_witness :
  render {| Props.config := VNull; Props.createFn := None;
            Props.form := {[ "EditForm" :=
              VObj {[ "id" := VStr "EditForm"; "fields" := VArr [Sample.titleState] ]} ]};
            Props.handleSubmit := None;
            Props.schemas := {[ "admin/schema" := Sample.formSchema ]};
            Props.schemaUrl := "admin/schema" |}
    = TypeError.
Proof.
  apply (render_throws_on_short_state _ Sample.formSchema
           (VObj {[ "id" := VStr "EditForm"; "fields" := VArr [Sample.titleState] ]})
           {[ "attributes" := VObj {[ "action" := VStr "/admin/save";
                                      "method" := VStr "post";
                                      "class" := VStr "cms-edit-form";
                                      "enctype" := VStr "multipart/form-data" ]};
              "actions" := VArr [Sample.saveAction; Sample.cancelAction];
              "fields" := VArr [Sample.titleField; Sample.contentField];
              "data" := VArr [] ]}
           [Sample.titleField; Sample.contentField] [Sample.titleState]);
    try reflexivity.
  simpl. lia.
Defined.

(** X10.  When the form state has more field entries than the schema has
    fields, the entries past the last schema field are ignored: [render]
    passes on one merged entry per schema field, entry i being the merge of
    schema field i with state entry i. *)
Theorem render_ignores_surplus_state (props : Props.t) (formSchema formState : value)
    (body : gmap string value) (fs ss : list value)
    (Hschema : Props.schemas props !! Props.schemaUrl props = Some formSchema)
    (HformId : truthy (prop formSchema "id") = true)
    (Hbody : prop formSchema "schema" = VObj body)
    (Hattributes : nullish (default VUndefined (body !! "attributes")) = false)
    (Hfs : body !! "fields" = Some (VArr fs))
    (Hstate : Props.form props !! to_key (prop formSchema "id") = Some formState)
    (Hss : prop formState "fields" = VArr ss)
    (Hlong : length fs <= length ss)
    (Hentries : Forall (fun s => nullish s = false) (take (length fs) ss)) :
  exists config merged,
    render props = Ok (NElement Form config) /\
    config !! "fields" = Some (VArr merged) /\
    length merged = length fs /\
    forall i f s,
      fs !! i = Some f -> ss !! i = Some s ->
      exists m, merged !! i = Some m /\ mergeFieldData f s = Ok m.
Proof.
  assert (truthy formState = true) as HtruthyState.
  { eapply truthy_prop. by rewrite Hss. }
  set (cb := fun (i : nat) (f : value) =>
               s ← get_index (VArr ss) i; mergeFieldData f s).
  assert (forall i f, fs !! i = Some f ->
            exists s, ss !! i = Some s /\ nullish s = false /\
                      cb i f = mergeFieldData f s) as Hcb.
  { intros i f Hi. apply lookup_lt_Some in Hi as Hlt.
    destruct (lookup_lt_is_Some_2 ss i) as [s Hs]; [lia|].
    exists s. split; [done|]. split.
    - eapply (proj1 (Forall_lookup _ _) Hentries).
      by rewrite lookup_take_lt.
    - unfold cb. by rewrite (get_index_lookup _ _ _ Hs). }
  destruct (map_outcome_total cb fs 0) as (merged & Hmerged).
  { intros j f Hj. change (0 + j) with j.
    destruct (Hcb _ _ Hj) as (s & _ & Hs & ->).
    destruct (mergeFieldData_merged f s Hs) as (m & -> & _). by eexists. }
  destruct (render_fields props formSchema body) as (formProps & Hfields & ->);
    try done.
  unfold formOf. rewrite Hstate. simpl. rewrite HtruthyState, Hss, Hfs.
  pose proof Hmerged as Hrun. unfold cb in Hrun. simpl in Hrun |- *.
  rewrite Hrun. simpl.
  eexists _, merged. split; [done|]. split; [apply Hfields|].
  split; [by eapply map_outcome_length|].
  intros i f s Hf Hs.
  destruct (map_outcome_lookup _ _ _ _ _ _ Hmerged Hf) as (y & Hy & Hi).
  destruct (Hcb _ _ Hf) as (s' & Hs' & _ & Hcbi). simplify_eq.
  change (0 + i) with i in Hy. rewrite Hcbi in Hy. by exists y.
Qed.

Lemma render_ignores_surplus_state_witness :
  let props := {|
    Props.config := VNull; Props.createFn := None;
    Props.form := {[ "EditForm" :=
      VObj {[ "id" := VStr "EditForm";
              "fields" := VArr [Sample.titleState; Sample.contentState;
                                Sample.titleState] ]} ]};
    Props.handleSubmit := None;
    Props.schemas := {[ "admin/schema" := Sample.formSchema ]};
    Props.schemaUrl := "admin/schema" |} in
  exists config merged,
    render props = Ok (NElement Form config) /\
    config !! "fields" = Some (VArr merged) /\
    length merged = 2.
Proof.
  intros props.
  destruct (render_ignores_surplus_state props Sample.formSchema
              (VObj {[ "id" := VStr "EditForm";
                       "fields" := VArr [Sample.titleState; Sample.contentState;
                                         Sample.titleState] ]})
              {[ "attributes" := VObj {[ "action" := VStr "/admin/save";
                                         "method" := VStr "post";
                                         "class" := VStr "cms-edit-form";
                                         "enctype" := VStr "multipart/form-data" ]};
                 "actions" := VArr [Sample.saveAction; Sample.cancelAction];
                 "fields" := VArr [Sample.titleField; Sample.contentField];
                 "data" := VArr [] ]}
              [Sample.titleField; Sample.contentField]
              [Sample.titleState; Sample.contentState; Sample.titleState]
              eq_refl eq_refl eq_refl eq_refl eq_refl eq_refl eq_refl)
    as (config & merged & Hrender & Hfields & Hlen & _).
  - simpl. lia.
  - repeat constructor.
  - exists config, merged. split; [exact Hrender|]. split; [exact Hfields|exact Hlen].
Defined.

(** *** Field and action mapper *)

(** X11.  A field list that holds [null] or [undefined] in place of a field
    makes [mapFieldsToComponents] throw: such an entry is not skipped the
    way a field without a component is, and no entry of the list is
    returned. *)
Theorem mapFieldsToComponents_throws_on_null (injector : Injector) (props : Props.t)
    (fields : list value)
    (Hnull : Exists (fun field => nullish field = true) fields) :
  mapFieldsToComponents injector props fields = TypeError.
Proof.
  apply Exists_exists in Hnull as (field & Hin & Hfield).
  apply list_elem_of_lookup in Hin as (i & Hi).
  apply (map_outcome_error _ fields 0 i field Hi).
  unfold fieldToComponent, fieldComponent.
  by rewrite (get_nullish field "component").
Qed.

Lemma mapFieldsToComponents_throws_on_null_witness :
  mapFieldsToComponents Sample.injector Sample.props
    [Sample.titleField; VNull; Sample.contentField] = TypeError.
Proof.
  apply mapFieldsToComponents_throws_on_null.
  apply Exists_cons_tl, Exists_cons_hd. reflexivity.
Defined.

Lemma actionProps_ok (form action : value) :
  nullish action = false -> form <> VNull ->
  exists aprops, actionProps form action = Ok aprops.
Proof.
  intros Haction Hform. unfold actionProps, deepFreeze.
  rewrite !(get_ok action) by done. simpl.
  assert (exists loading,
            (if negb (String.eqb (typeof form) "undefined")
             then get form "submitting" else Ok (VBool false)) = Ok loading)
    as (loading & ->).
  { rewrite typeof_undefined. destruct form; try done; by eexists. }
  simpl. repeat case_match; by eexists.
Qed.

(** X12.  Unlike fields, actions are never dropped: for a list of action
    records, [mapActionsToComponents] returns one entry per action, and,
    when the props carry no [createFn] hook, each entry is a [FormAction]
    element that carries the properties that its action resolves to. *)
Theorem mapActionsToComponents_keeps_all (props : Props.t) (formId : value)
    (actions : list value)
    (HformId : getFormId props = Ok formId)
    (Hform : formOf props formId <> VNull)
    (Hactions : Forall (fun action => exists am, action = VObj am) actions) :
  exists nodes,
    mapActionsToComponents props actions = Ok nodes /\
    length nodes = length actions /\
    (Props.createFn props = None ->
     forall i action,
       actions !! i = Some action ->
       exists aprops config,
         actionProps (formOf props formId) action = Ok aprops /\
         nodes !! i = Some (NElement FormAction config) /\
         forall k, k <> "key" -> config !! k = own_props aprops !! k).
Proof.
  unfold mapActionsToComponents. rewrite HformId. simpl.
  destruct (map_outcome_total (actionToComponent props (formOf props formId)) actions 0)
    as (nodes & Hnodes).
  { intros j action Hj. unfold actionToComponent.
    destruct (actionProps_ok (formOf props formId) action) as (aprops & ->);
      [|done|].
    { by destruct (proj1 (Forall_lookup _ _) Hactions j action Hj) as [am ->]. }
    simpl. destruct (Props.createFn props); by eexists. }
  exists nodes. split; [done|]. split; [by eapply map_outcome_length|].
  intros Hhook i action Hi.
  destruct (map_outcome_lookup _ _ _ _ _ _ Hnodes Hi) as (y & Hy & ->).
  simpl in Hy. unfold actionToComponent in Hy. rewrite Hhook in Hy.
  destruct (actionProps (formOf props formId) action) as [aprops|]; [|done].
  simpl in Hy. injection Hy as <-.
  eexists _, _. split; [done|]. split; [done|].
  intros k Hk. rewrite lookup_union, lookup_singleton_ne by done.
  by destruct (own_props aprops !! k).
Qed.

Lemma mapActionsToComponents_keeps_all_witness :
  exists nodes,
    mapActionsToComponents Sample.props
      [Sample.saveAction; VObj {[ "name" := VStr "action_publish" ]};
       Sample.cancelAction] = Ok nodes /\
    length nodes = 3.
Proof.
  destruct (mapActionsToComponents_keeps_all Sample.props (VStr "EditForm")
              [Sample.saveAction; VObj {[ "name" := VStr "action_publish" ]};
               Sample.cancelAction] eq_refl)
    as (nodes & Hnodes & Hlen & _).
  - vm_compute. discriminate.
  - repeat constructor; by eexists.
  - exists nodes. split; [exact Hnodes|exact Hlen].
Defined.

(** X13.  When the store holds [null] under the form id, a list that
    contains a save action cannot be mapped: [typeof null] is not
    ['undefined'], so [submitting] is read on [null], and
    [mapActionsToComponents] throws. *)
Theorem mapActionsToComponents_throws_on_null_form (props : Props.t) (formId : value)
    (actions : list value)
    (HformId : getFormId props = Ok formId)
    (Hform : formOf props formId = VNull)
    (Hsave : Exists (fun action => prop action "name" = VStr "action_save") actions) :
  mapActionsToComponents props actions = TypeError.
Proof.
  unfold mapActionsToComponents. rewrite HformId. simpl.
  unfold formOf in Hform |- *. rewrite Hform.
  apply Exists_exists in Hsave as (action & Hin & Hname).
  apply list_elem_of_lookup in Hin as (i & Hi).
  apply (map_outcome_error _ actions 0 i action Hi).
  unfold actionToComponent, actionProps, deepFreeze.
  destruct (nullish action) eqn:Haction;
    [by rewrite (get_nullish action "name")|].
  rewrite !(get_ok action) by done. by rewrite Hname.
Qed.

Lemma mapActionsToComponents_throws_on_null_form_witness :
  let props := {|
    Props.config := VNull; Props.createFn := None;
    Props.form := {[ "EditForm" := VNull ]};
    Props.handleSubmit := None;
    Props.schemas := {[ "admin/schema" := Sample.formSchema ]};
    Props.schemaUrl := "admin/schema" |} in
  mapActionsToComponents props [Sample.cancelAction; Sample.saveAction] = TypeError.
Proof.
  intros props.
  apply (mapActionsToComponents_throws_on_null_form props (VStr "EditForm"));
    try reflexivity.
  apply Exists_cons_tl, Exists_cons_hd. reflexivity.
Defined.

(** *** Field-state merger *)

Lemma merge_recursive_undefined (mb : gmap string value) :
  Merge.merge_recursive (VObj mb) VUndefined = VObj mb.
Proof.
  simpl. f_equal. apply map_eq. intros k.
  rewrite lookup_union, map_lookup_imap, lookup_empty.
  by destruct (mb !! k).
Qed.

(** X14.  A state entry that lacks one of [data], [messages], [valid] and
    [value] still sets it: the merged record holds [undefined] under that
    key in place of whatever the schema field had there (a default value,
    a list of messages), unless the schema field holds a plain object
    under the key, which is then kept. *)
Theorem mergeFieldData_missing_state_key (structure state : value) (k : string)
    (Hstate : nullish state = false)
    (Hkey : k ∈ stateKeys)
    (Hmissing : prop state k = VUndefined) :
  exists m,
    mergeFieldData structure state = Ok (VObj m) /\
    m !! k = Some (let b := default VUndefined (structuralProps structure !! k) in
                   if Merge.plain b then b else VUndefined).
Proof.
  destruct (mergeFieldData_merged structure state Hstate)
    as (m & Hm & _ & _ & Hin & _).
  exists m. split; [done|]. rewrite (Hin k Hkey), Hmissing. simpl.
  destruct (default VUndefined (structuralProps structure !! k)) as [| | | | | | |mb];
    try done.
  by rewrite merge_recursive_undefined.
Qed.

Lemma mergeFieldData_missing_state_key_witness :
  exists m,
    mergeFieldData (VObj {[ "name" := VStr "Title"; "value" := VStr "draft" ]})
                   (VObj {[ "id" := VNum 1 ]}) = Ok (VObj m) /\
    m !! "value" = Some VUndefined.
Proof.
  destruct (mergeFieldData_missing_state_key
              (VObj {[ "name" := VStr "Title"; "value" := VStr "draft" ]})
              (VObj {[ "id" := VNum 1 ]}) "value" eq_refl)
    as (m & Hm & Hvalue).
  - by vm_compute.
  - reflexivity.
  - exists m. split; [exact Hm|]. rewrite Hvalue. reflexivity.
Defined.

(** X15.  Where the schema field and the state entry both hold a plain
    object under one of the four state keys (the [data] of a field), the
    merged record holds under that key an object with the keys of both: a
    key of the state object takes the value of the state, merged in the
    same way when both values are plain objects again, and a key of the
    schema object alone keeps its value. *)
Theorem mergeFieldData_merges_nested (structure state : value) (k : string)
    (sb se : gmap string value)
    (Hstate : nullish state = false)
    (Hkey : k ∈ stateKeys)
    (Hsb : structuralProps structure !! k = Some (VObj sb))
    (Hse : prop state k = VObj se) :
  exists m mk,
    mergeFieldData structure state = Ok (VObj m) /\
    m !! k = Some (VObj mk) /\
    dom mk = dom sb ∪ dom se /\
    forall j,
      mk !! j =
        match sb !! j, se !! j with
        | Some b, Some e =>
            Some (if Merge.plain b && Merge.plain e
                  then Merge.merge_recursive b e else e)
        | Some b, None => Some b
        | None, o => o
        end.
Proof.
  destruct (mergeFieldData_merged structure state Hstate)
    as (m & Hm & _ & _ & Hin & _).
  destruct (merge_recursive_lookup sb se k) as (mk & Hmk & _).
  exists m, mk. split; [done|].
  assert (forall j,
            mk !! j =
              match sb !! j, se !! j with
              | Some b, Some e =>
                  Some (if Merge.plain b && Merge.plain e
                        then Merge.merge_recursive b e else e)
              | Some b, None => Some b
              | None, o => o
              end) as Hlookup.
  { intros j. destruct (merge_recursive_lookup sb se j) as (mj & Hmj & Hj).
    rewrite Hmk in Hmj. by injection Hmj as <-. }
  split; [|split; [|done]].
  - rewrite (Hin k Hkey), Hsb, Hse. simpl. by f_equal.
  - apply set_eq. intros j. rewrite elem_of_union, !elem_of_dom, Hlookup.
    destruct (sb !! j), (se !! j); naive_solver.
Qed.

Lemma mergeFieldData_merges_nested_witness :
  exists m mk,
    mergeFieldData Sample.titleField Sample.titleState = Ok (VObj m) /\
    m !! "data" = Some (VObj mk) /\
    mk !! "placeholder" = Some (VStr "...") /\
    mk !! "dirty" = Some (VBool true).
Proof.
  destruct (mergeFieldData_merges_nested Sample.titleField Sample.titleState "data"
              {[ "placeholder" := VStr "..." ]} {[ "dirty" := VBool true ]} eq_refl)
    as (m & mk & Hm & Hdata & _ & Hlookup).
  - by vm_compute.
  - reflexivity.
  - reflexivity.
  - exists m, mk. split; [exact Hm|]. split; [exact Hdata|].
    split; rewrite Hlookup; reflexivity.
Defined.

(** *** Submissions over the life of an instance *)













